(** * The isolated execution orchestrator of [langwatch_nlp.studio]

    A shallow embedding of [studio/types/events.py] and [studio/app.py]:
    the event protocol, the worker runtime ([execute_event],
    [event_worker]), the execution supervisor
    ([execute_event_on_a_subprocess], [stop_process], [kill_process]), the
    shutdown handler and the synchronous endpoint ([execute_sync]); and of
    the field dictionaries of [studio/parser.py] ([parse_fields],
    [autoparse_fields]).

    Conventions.
    - Wall-clock readings ([time.time()]) and durations are rationals, in
      seconds, so that the constants of the source ([120], [120 * 60],
      [0.1], [0.2], [3.0]) appear as they are written there.
    - An asynchronous generator is modelled by the list of effects it
      performs, in order; the events it yields are the [Yield] entries.
    - Everything the generator observes from outside (what [queue.get]
      returns, what the clock reads, whether the worker process is alive,
      whether the consumer resumes the generator after a [yield]) is given
      by a script, one entry per observation. *)

From Stdlib Require Import QArith.
From stdpp Require Import gmap strings list.

Local Open Scope string_scope.
Local Open Scope list_scope.

(** ** Types of [studio/types/dsl.py] used by the orchestrator *)

(** Modelled from the spec: [dsl.py] is not among the sources.  The spec
    gives the status enumeration as {running, success, error}; these are
    also the only members the sources mention. *)
Module ExecutionStatus.
Inductive t := running | success | error.
End ExecutionStatus.

(** Modelled from the spec: [dsl.py] is not among the sources.  "Millisecond
    timestamps for start/finish"; [stopped_at] is the keyword the stop
    branches pass on. *)
Record Timestamps := {
  started_at : option Z;
  finished_at : option Z;
  stopped_at : option Z
}.

(** Modelled from the spec: [dsl.py] is not among the sources.  The fields
    are the keywords [events.py] passes to the constructor; every field but
    the status is optional and absent by default. *)
Module ExecutionState.
Record t := mk {
  status : ExecutionStatus.t;
  trace_id : option string;
  timestamps : option Timestamps;
  inputs : option (gmap string string);
  outputs : option (gmap string string);
  cost : option Q;
  error : option string
}.
End ExecutionState.

(** Modelled from the spec: [dsl.py] is not among the sources.  The fields
    are the attributes [execute_sync] reads; [result] maps output names to
    values (kept as their JSON text). *)
Module WorkflowExecutionState.
Record t := mk {
  status : ExecutionStatus.t;
  trace_id : option string;
  result : option (gmap string string);
  error : option string
}.
End WorkflowExecutionState.

(** Modelled from the spec: [dsl.py] is not among the sources.  The state
    carried by an evaluation or optimization state change; the fields are
    the keywords the stop branches of [app.py] supply. *)
Module RunExecutionState.
Record t := mk {
  status : ExecutionStatus.t;
  run_id : string;
  error : option string;
  timestamps : option Timestamps
}.
End RunExecutionState.

(** Modelled from the spec: [dsl.py] is not among the sources.  Of a
    workflow the orchestrator reads only these two attributes. *)
Record Workflow := { api_key : string; workflow_id : string }.

(** Modelled from the spec: [dsl.py] is not among the sources.  Of a node
    [events.py] reads only [id]. *)
Record Node := { id : string }.

(** ** [studio/types/events.py]: client events *)

Module ExecuteComponentPayload.
Record t := mk {
  trace_id : string;
  workflow : Workflow;
  node_id : string;
  inputs : gmap string string
}.
End ExecuteComponentPayload.

Module StopExecutionPayload.
Record t := mk {
  trace_id : string;
  node_id : option string
}.
End StopExecutionPayload.

Module ExecuteFlowPayload.
Record t := mk {
  trace_id : string;
  workflow : Workflow;
  until_node_id : option string;
  inputs : option (list (gmap string string))
}.
End ExecuteFlowPayload.

Inductive EvaluateOn := full | test | train.

Module ExecuteEvaluationPayload.
Record t := mk {
  run_id : string;
  workflow : Workflow;
  workflow_version_id : string;
  evaluate_on : EvaluateOn
}.
End ExecuteEvaluationPayload.

Module StopEvaluationExecutionPayload.
Record t := mk {
  workflow : Workflow;
  run_id : string
}.
End StopEvaluationExecutionPayload.

Record ExecuteOptimizationParams := {
  max_bootstrapped_demos : option Z;
  max_labeled_demos : option Z;
  max_rounds : option Z;
  num_candidate_programs : option Z
}.

Inductive Optimizer := BootstrapFewShot | BootstrapFewShotWithRandomSearch.

Module ExecuteOptimizationPayload.
Record t := mk {
  run_id : string;
  workflow : Workflow;
  workflow_version_id : string;
  optimizer : Optimizer;
  params : ExecuteOptimizationParams
}.
End ExecuteOptimizationPayload.

Module StopOptimizationExecutionPayload.
Record t := mk {
  workflow : Workflow;
  run_id : string
}.
End StopOptimizationExecutionPayload.

(** The union [StudioClientEvent]. *)
Inductive StudioClientEvent :=
| IsAlive
| ExecuteComponent (payload : ExecuteComponentPayload.t)
| StopExecution (payload : StopExecutionPayload.t)
| ExecuteFlow (payload : ExecuteFlowPayload.t)
| ExecuteEvaluation (payload : ExecuteEvaluationPayload.t)
| StopEvaluationExecution (payload : StopEvaluationExecutionPayload.t)
| ExecuteOptimization (payload : ExecuteOptimizationPayload.t)
| StopOptimizationExecution (payload : StopOptimizationExecutionPayload.t).

(** The [type] attribute: the literal each class declares. *)
Definition type (event : StudioClientEvent) : string :=
  match event with
  | IsAlive => "is_alive"
  | ExecuteComponent _ => "execute_component"
  | StopExecution _ => "stop_execution"
  | ExecuteFlow _ => "execute_flow"
  | ExecuteEvaluation _ => "execute_evaluation"
  | StopEvaluationExecution _ => "stop_evaluation_execution"
  | ExecuteOptimization _ => "execute_optimization"
  | StopOptimizationExecution _ => "stop_optimization_execution"
  end.

(** ** [studio/types/events.py]: server events *)

Record ComponentStateChangePayload := {
  component_id : string;
  execution_state : ExecutionState.t
}.

Record DebugPayload := { debug_message : string }.
Record ErrorPayload := { message : string }.

(** The union [StudioServerEvent].  The payloads of the execution,
    evaluation and optimization state changes have one field each
    ([execution_state], [evaluation_state], [optimization_state]), which the
    constructor carries directly. *)
Inductive StudioServerEvent :=
| IsAliveResponse
| ComponentStateChange (payload : ComponentStateChangePayload)
| ExecutionStateChange (execution_state : WorkflowExecutionState.t)
| EvaluationStateChange (evaluation_state : RunExecutionState.t)
| OptimizationStateChange (optimization_state : RunExecutionState.t)
| Debug (payload : DebugPayload)
| Error (payload : ErrorPayload)
| Done.

(** [isinstance(result, Done)] *)
Definition is_Done (result : StudioServerEvent) : bool :=
  match result with Done => true | _ => false end.

(** [isinstance(result, Error)] *)
Definition is_Error (result : StudioServerEvent) : bool :=
  match result with Error _ => true | _ => false end.

(** Python's [int(x)] on a float: truncation toward zero. *)
Definition int (x : Q) : Z := (Qnum x ÷ Z.pos (Qden x))%Z.

(** [int(time.time() * 1000)], for a clock reading [now].  The product is
    taken exactly; the float product of the source is that value rounded
    to a double, so the source's result can be one more. *)
Definition now_ms (now : Q) : Z := int (now * 1000).

(** Truthiness of an optional dictionary: [None] and [{}] are false. *)
Definition truthy_dict {V} (d : option (gmap string V)) : bool :=
  match d with
  | Some m => negb (bool_decide (m = ∅))
  | None => false
  end.

(** Truthiness of an optional string: [None] and [""] are false. *)
Definition truthy (s : option string) : bool :=
  match s with
  | Some x => negb (bool_decide (x = ""))
  | None => false
  end.

(** [start_component_event(node, trace_id, inputs)], at clock reading
    [now]. *)
Definition start_component_event (node : Node) (trace_id : string)
    (inputs : option (gmap string string)) (now : Q) : StudioServerEvent :=
  ComponentStateChange
    {| component_id := id node;
       execution_state :=
         ExecutionState.mk ExecutionStatus.running (Some trace_id)
           (Some {| started_at := Some (now_ms now);
                    finished_at := None; stopped_at := None |})
           (if truthy_dict inputs then inputs else None)
           None None None |}.

(** [end_component_event(node, trace_id, outputs, cost)] *)
Definition end_component_event (node : Node) (trace_id : string)
    (outputs : gmap string string) (cost : option Q) (now : Q)
    : StudioServerEvent :=
  ComponentStateChange
    {| component_id := id node;
       execution_state :=
         ExecutionState.mk ExecutionStatus.success (Some trace_id)
           (Some {| started_at := None;
                    finished_at := Some (now_ms now); stopped_at := None |})
           None (Some outputs) cost None |}.

(** [component_error_event(trace_id, node_id, error)]: [trace_id] does not
    occur in the body. *)
Definition component_error_event (trace_id : string) (node_id : string)
    (error : string) (now : Q) : StudioServerEvent :=
  ComponentStateChange
    {| component_id := node_id;
       execution_state :=
         ExecutionState.mk ExecutionStatus.error None
           (Some {| started_at := None;
                    finished_at := Some (now_ms now); stopped_at := None |})
           None None None (Some error) |}.

(** ** [studio/app.py]: the worker runtime *)

(** The work-execution collaborators ([execute_component], [execute_flow],
    [execute_evaluation], [execute_optimization]) are not among the
    sources.  Each is an asynchronous generator; what [execute_event] sees
    of one is the events it yields and, possibly, the exception that ends
    it: [raised] holds [repr(e)] of that exception and the clock reading
    when it is caught. *)
Record Collaboration := {
  produced : list StudioServerEvent;
  raised : option (string * Q)
}.

Record Collaborators := {
  execute_component : ExecuteComponentPayload.t -> Collaboration;
  execute_flow : ExecuteFlowPayload.t -> Collaboration;
  execute_evaluation : ExecuteEvaluationPayload.t -> Collaboration;
  execute_optimization : ExecuteOptimizationPayload.t -> Collaboration
}.

(** [try: async for event_ in c: yield event_  except Exception as e: yield
    handler(e)] *)
Definition forward (c : Collaboration)
    (handler : string -> Q -> StudioServerEvent) : list StudioServerEvent :=
  produced c ++
  match raised c with
  | Some (repr_e, now) => [handler repr_e now]
  | None => []
  end.

(** [execute_event(event, queue)]: the events the generator yields.  The
    handlers of the inner [try] blocks build an event and cannot fail, so
    the outer [except] is not entered. *)
Definition execute_event (ext : Collaborators) (event : StudioClientEvent)
    : list StudioServerEvent :=
  [Debug {| debug_message := "server starting execution" |}] ++
  match event with
  | IsAlive => [IsAliveResponse]
  | ExecuteComponent payload =>
      forward (execute_component ext payload)
        (fun repr_e now =>
           component_error_event (ExecuteComponentPayload.trace_id payload)
             (ExecuteComponentPayload.node_id payload) repr_e now)
  | ExecuteFlow payload =>
      forward (execute_flow ext payload)
        (fun repr_e _ => Error {| message := repr_e |})
  | ExecuteEvaluation payload =>
      forward (execute_evaluation ext payload)
        (fun repr_e _ => Error {| message := repr_e |})
  | ExecuteOptimization payload =>
      forward (execute_optimization ext payload)
        (fun repr_e _ => Error {| message := repr_e |})
  | _ =>
      [Error {| message := "Unknown event type from client: " +:+ type event |}]
  end ++
  [Done].

Inductive Signal := SIGTERM | SIGINT | SIGUSR1.

(** What [queue_in.get(timeout=1)] does in one iteration of the worker's
    loop: it raises [queue.Empty] after a second, or returns an item, which
    is an event or the sentinel [None]. *)
Inductive inbound :=
| TimedOut
| Item (event : option StudioClientEvent).

Inductive worker_effect :=
| SetReady                                   (* ready_event.set() *)
| InstallHandler (sig : Signal)              (* signal.signal(sig, shutdown_handler) *)
| PutOut (event : StudioServerEvent).        (* queue_out.put(event) *)

Inductive worker_state :=
| Waiting      (* inside [while True], about to call queue_in.get again *)
| Exited.      (* left the loop through [break] *)

(** The [while True] loop of [event_worker], run against the items its
    inbound queue delivers. *)
Fixpoint worker_loop (ext : Collaborators) (queue_in : list inbound)
    : list worker_effect * worker_state :=
  match queue_in with
  | [] => ([], Waiting)
  | TimedOut :: rest => worker_loop ext rest
  | Item None :: _ => ([], Exited)
  | Item (Some event) :: rest =>
      let (effects, state) := worker_loop ext rest in
      (map PutOut (execute_event ext event) ++ effects, state)
  end.

(** [event_worker(ready_event, queue_in, queue_out)] *)
Definition event_worker (ext : Collaborators) (queue_in : list inbound)
    : list worker_effect * worker_state :=
  let (effects, state) := worker_loop ext queue_in in
  (SetReady :: InstallHandler SIGUSR1 :: effects, state).

(** The events a worker has put on its outbound queue. *)
Definition outbound (effects : list worker_effect) : list StudioServerEvent :=
  omap (fun eff => match eff with PutOut e => Some e | _ => None end) effects.

(** ** [studio/app.py]: the shutdown handler *)

(** The part of a process the handler acts on: the clock, the pending
    [threading.Timer] (the instant at which it fires), the [SystemExit]
    that is propagating, and the status [os._exit] ended the process with. *)
Record Proc := {
  clock : Q;
  timer : option Q;
  exiting : option Z;
  forced : option Z
}.

(** A statement either completes or raises [SystemExit]. *)
Inductive completion := Normal | SystemExit (code : Z).

(** [timer = threading.Timer(interval, forceful_exit); timer.start()] *)
Definition timer_start (interval : Q) (p : Proc) : Proc * completion :=
  ({| clock := clock p; timer := Some (clock p + interval)%Q;
      exiting := exiting p; forced := forced p |}, Normal).

(** [timer.cancel()] *)
Definition timer_cancel (p : Proc) : Proc * completion :=
  ({| clock := clock p; timer := None;
      exiting := exiting p; forced := forced p |}, Normal).

(** [sys.exit(code)]: raises [SystemExit]; the interpreter exits once the
    exception has unwound the stack. *)
Definition sys_exit (code : Z) (p : Proc) : Proc * completion :=
  ({| clock := clock p; timer := timer p;
      exiting := Some code; forced := forced p |}, SystemExit code).

(** [forceful_exit()]: [os._exit(1)] *)
Definition forceful_exit (p : Proc) : Proc :=
  {| clock := clock p; timer := None;
     exiting := exiting p; forced := Some 1%Z |}.

(** [a; b] *)
Definition seq (a b : Proc -> Proc * completion) (p : Proc)
    : Proc * completion :=
  match a p with
  | (p', Normal) => b p'
  | (p', SystemExit code) => (p', SystemExit code)
  end.

(** [try: body finally: cleanup] *)
Definition try_finally (body cleanup : Proc -> Proc * completion) (p : Proc)
    : Proc * completion :=
  match body p with
  | (p', Normal) => cleanup p'
  | (p', SystemExit code) =>
      match cleanup p' with
      | (p'', Normal) => (p'', SystemExit code)
      | (p'', SystemExit code') => (p'', SystemExit code')
      end
  end.

(** [shutdown_handler(sig, frame)] *)
Definition shutdown_handler (sig : Signal) (p : Proc) : Proc * completion :=
  seq (timer_start 3.0%Q) (try_finally (sys_exit 0) timer_cancel) p.

Definition Qlt_bool (x y : Q) : bool := negb (Qle_bool y x).

(** The process lives on for [seconds] more (the exit it began has not
    completed): a pending timer whose instant is reached within that time
    fires and runs [forceful_exit]. *)
Definition elapse (seconds : Q) (p : Proc) : Proc :=
  let p' := {| clock := (clock p + seconds)%Q; timer := timer p;
               exiting := exiting p; forced := forced p |} in
  match forced p, timer p with
  | None, Some instant =>
      if Qle_bool instant (clock p + seconds)%Q then forceful_exit p' else p'
  | _, _ => p'
  end.

(** ** [studio/app.py]: the execution supervisor *)

(** A [multiprocessing.Process], as far as the supervisor reads it.  The
    class is the standard library's: [pid] is [None] until the process is
    started. *)
Record Process := { pid : option nat }.

(** A [multiprocessing.Queue], by the identity of the queue object. *)
Definition Queue := nat.

(** [class RunningProcess(TypedDict)] *)
Record RunningProcess := { process : Process; queue : Queue }.

(** The effects of the supervisor's generator, in the order they happen. *)
Inductive action :=
| Yield (event : StudioServerEvent)
| Put (queue : Queue) (event : StudioServerEvent)      (* queue.put(event) *)
| Sleep (seconds : Q)                                  (* await asyncio.sleep(seconds) *)
| Kill (pid : nat) (sig : Signal)                      (* os.kill(pid, sig) *)
| PostResults (api_key experiment_slug run_id : string)
              (finished_at stopped_at : Z).            (* EvaluationReporting.post_results *)

(** The events delivered to the consumer of the generator. *)
Definition stream (trace : list action) : list StudioServerEvent :=
  omap (fun a => match a with Yield e => Some e | _ => None end) trace.

(** [get_trace_id(event)]: [IsAlive] has a plain [dict] as payload, which
    has neither attribute. *)
Definition get_trace_id (event : StudioClientEvent) : option string :=
  match event with
  | IsAlive => None
  | ExecuteComponent payload => Some (ExecuteComponentPayload.trace_id payload)
  | StopExecution payload => Some (StopExecutionPayload.trace_id payload)
  | ExecuteFlow payload => Some (ExecuteFlowPayload.trace_id payload)
  | ExecuteEvaluation payload => Some (ExecuteEvaluationPayload.run_id payload)
  | StopEvaluationExecution payload =>
      Some (StopEvaluationExecutionPayload.run_id payload)
  | ExecuteOptimization payload =>
      Some (ExecuteOptimizationPayload.run_id payload)
  | StopOptimizationExecution payload =>
      Some (StopOptimizationExecutionPayload.run_id payload)
  end.

(** [kill_process(process)] *)
Definition kill_process (process : Process) : list action :=
  match pid process with
  | None => []
  | Some pid => [Kill pid SIGUSR1]
  end.

(** [trace_id in running_processes] *)
Definition registered (trace_id : string)
    (running_processes : gmap string RunningProcess) : bool :=
  bool_decide (is_Some (running_processes !! trace_id)).

(** [stop_process(trace_id)].  [others] is what the other coroutines do to
    [running_processes] while this one is suspended in
    [asyncio.sleep(0.2)].  The result is [None] when the first subscript
    raises [KeyError]. *)
Definition stop_process (trace_id : string)
    (others : gmap string RunningProcess -> gmap string RunningProcess)
    (running_processes : gmap string RunningProcess)
    : option (list action * gmap string RunningProcess) :=
  match running_processes !! trace_id with
  | None => None
  | Some record =>
      let running_processes := others running_processes in
      Some
        ([Put (queue record) Done; Sleep 0.2] ++
         match running_processes !! trace_id with
         | Some record' => kill_process (process record')
         | None => []
         end,
         if registered trace_id running_processes
         then delete trace_id running_processes
         else running_processes)
  end.

(** Modelled from the spec: [execute/execute_evaluation.py] is not among
    the sources.  [error_evaluation_event(run_id, error, stopped_at)] is
    "the corresponding terminal state-change event" of a stopped
    evaluation. *)
Definition error_evaluation_event (run_id : string) (error : string)
    (stopped_at : Z) : StudioServerEvent :=
  EvaluationStateChange
    (RunExecutionState.mk ExecutionStatus.error run_id (Some error)
       (Some {| started_at := None; finished_at := None;
                stopped_at := Some stopped_at |})).

(** Modelled from the spec: [execute/execute_optimization.py] is not among
    the sources.  [error_optimization_event(run_id, error, stopped_at)] is
    "the corresponding terminal state-change event" of a stopped
    optimization. *)
Definition error_optimization_event (run_id : string) (error : string)
    (stopped_at : Z) : StudioServerEvent :=
  OptimizationStateChange
    (RunExecutionState.mk ExecutionStatus.error run_id (Some error)
       (Some {| started_at := None; finished_at := None;
                stopped_at := Some stopped_at |})).

(** One iteration of the polling loop, as the outside decides it:
    [now] is the reading of [time.time()] at the top of the iteration;
    [queue.get(block=False)] returns [result], raises [Empty], or raises
    something else.  After [yield result] the consumer either resumes the
    generator ([resumed] is the next clock reading) or closes it ([None]).
    [alive] is what [process.is_alive()] answers. *)
Inductive poll :=
| Got (now : Q) (result : StudioServerEvent) (resumed : option Q)
| QueueEmpty (now : Q) (alive : bool)
| Broken (now : Q) (repr_e : string).

(** How control leaves the [while] loop. *)
Inductive loop_exit :=
| Finished                  (* [done = True; break] *)
| Expired                   (* the loop condition is false, [done] is false *)
| Thrown (repr_e : string)  (* an exception, caught by [except Exception] *)
| Closed                    (* the consumer closed the generator at a yield *)
| Starved.                  (* the script is used up; the loop is still running *)

(** The [while time_since_last_message < timeout_without_messages] loop. *)
Fixpoint poll_loop (timeout_without_messages : Q)
    (last_message_time time_since_last_message : Q) (script : list poll)
    : list action * loop_exit :=
  if Qlt_bool time_since_last_message timeout_without_messages then
    match script with
    | [] => ([], Starved)
    | Got now result resumed :: script =>
        let time_since_last_message := (now - last_message_time)%Q in
        match resumed with
        | None => ([Yield result], Closed)
        | Some last_message_time =>
            if is_Done result then ([Yield result], Finished)
            else
              let (trace, exit) :=
                poll_loop timeout_without_messages last_message_time
                  time_since_last_message script in
              (Yield result :: trace, exit)
        end
    | QueueEmpty now alive :: script =>
        let time_since_last_message := (now - last_message_time)%Q in
        if Qlt_bool 10 timeout_without_messages && negb alive
        then ([], Thrown "Exception('Runtime crashed')")
        else
          let (trace, exit) :=
            poll_loop timeout_without_messages last_message_time
              time_since_last_message script in
          (Sleep 0.1 :: trace, exit)
    | Broken now repr_e :: _ => ([], Thrown repr_e)
    end
  else ([], Expired).

(** What the generator meets outside itself during one request. *)
Record Outside := {
  submitted : Process * Queue;      (* the result of [pool.submit(event)] *)
  start_time : Q;                   (* [last_message_time = time.time()] *)
  polls : list poll;                (* the iterations of the polling loop *)
  error_resumed : bool;             (* the consumer resumes after the yield
                                       of the timeout error *)
  alive_at_exit : bool;             (* [process.is_alive()] in [finally] *)
  others : gmap string RunningProcess -> gmap string RunningProcess;
                                    (* what other coroutines do to
                                       [running_processes] while this one
                                       is suspended *)
  readings : Q * Q * Q              (* the clock readings of a stop branch *)
}.

(** How the generator stands at the end of the script. *)
Inductive status :=
| Returned                   (* ran to its end *)
| Closing                    (* closed by the consumer; [finally] has run *)
| Raising (repr_e : string)  (* an exception left the generator *)
| Suspended.                 (* still polling *)

Record Run := {
  trace : list action;
  table : gmap string RunningProcess;
  state : status
}.

(** The [finally] block. *)
Definition cleanup (event : StudioClientEvent) (process : Process)
    (alive : bool) (running_processes : gmap string RunningProcess)
    : list action * gmap string RunningProcess :=
  (if alive then kill_process process else [],
   match get_trace_id event with
   | Some trace_id =>
       if truthy (Some trace_id) && registered trace_id running_processes
       then delete trace_id running_processes
       else running_processes
   | None => running_processes
   end).

(** The branch taken for one of the three stop requests: [stop_process]
    and what follows it, given the id and the event to yield. *)
Definition stop_branch (trace_id : string) (out : Outside)
    (running_processes : gmap string RunningProcess)
    (after : list action) : Run :=
  if registered trace_id running_processes then
    match stop_process trace_id (others out) running_processes with
    | Some (effects, running_processes) =>
        {| trace := effects ++ after; table := running_processes;
           state := Returned |}
    | None =>
        {| trace := []; table := running_processes;
           state := Raising ("KeyError('" +:+ trace_id +:+ "')") |}
    end
  else {| trace := []; table := running_processes; state := Returned |}.

(** The registration after [pool.submit]:
    [if trace_id and trace_id not in running_processes:
       running_processes[trace_id] = RunningProcess(process, queue)] *)
Definition register (event : StudioClientEvent) (process : Process)
    (queue : Queue) (running_processes : gmap string RunningProcess)
    : gmap string RunningProcess :=
  match get_trace_id event with
  | Some trace_id =>
      if truthy (Some trace_id)
         && negb (registered trace_id running_processes)
      then <[trace_id := {| process := process; queue := queue |}]>
             running_processes
      else running_processes
  | None => running_processes
  end.

(** [timeout_without_messages], in seconds. *)
Definition timeout_without_messages (event : StudioClientEvent) : Q :=
  match event with
  | ExecuteOptimization _ => 120 * 60
  | _ => 120
  end.

(** The path of [execute_event_on_a_subprocess] after the three stop
    branches: submission to the pool, registration, the polling loop, the
    timeout and exception handlers, and [finally]. *)
Definition supervise (event : StudioClientEvent) (out : Outside)
    (running_processes : gmap string RunningProcess) : Run :=
  let (process, queue) := submitted out in
  let running_processes := register event process queue running_processes in
  let (relayed, exit) :=
    poll_loop (timeout_without_messages event) (start_time out) 0
      (polls out) in
  let finish (effects : list action) (state : status) : Run :=
    let (last, running_processes) :=
      cleanup event process (alive_at_exit out)
        (others out running_processes) in
    {| trace := relayed ++ effects ++ last; table := running_processes;
       state := state |} in
  match exit with
  | Finished => finish [] Returned
  | Expired =>
      if error_resumed out
      then finish
             (Yield (Error {| message := "Execution timed out" |})
              :: kill_process process) Returned
      else finish
             [Yield (Error {| message := "Execution timed out" |})] Closing
  | Thrown repr_e =>
      finish
        [Yield (Error {| message := "Unexpected error: " +:+ repr_e |})]
        (if error_resumed out then Returned else Closing)
  | Closed => finish [] Closing
  | Starved =>
      {| trace := relayed; table := running_processes; state := Suspended |}
  end.

(** [execute_event_on_a_subprocess(event)], started with the table
    [running_processes]. *)
Definition execute_event_on_a_subprocess (event : StudioClientEvent)
    (out : Outside) (running_processes : gmap string RunningProcess) : Run :=
  match event with
  | StopExecution payload =>
      stop_branch (StopExecutionPayload.trace_id payload) out running_processes
        [Yield
           (match StopExecutionPayload.node_id payload with
            | Some node_id =>
                if truthy (Some node_id)
                then component_error_event
                       (StopExecutionPayload.trace_id payload) node_id
                       "Interrupted" (readings out).1.1
                else Error {| message := "Interrupted" |}
            | None => Error {| message := "Interrupted" |}
            end)]
  | StopEvaluationExecution payload =>
      let workflow := StopEvaluationExecutionPayload.workflow payload in
      let run_id := StopEvaluationExecutionPayload.run_id payload in
      stop_branch run_id out running_processes
        [PostResults (api_key workflow) (workflow_id workflow) run_id
           (now_ms (readings out).1.1) (now_ms (readings out).1.2);
         Yield (error_evaluation_event run_id "Evaluation Stopped"
                  (now_ms (readings out).2))]
  | StopOptimizationExecution payload =>
      let run_id := StopOptimizationExecutionPayload.run_id payload in
      stop_branch run_id out running_processes
        [Yield (error_optimization_event run_id "Optimization Stopped"
                  (now_ms (readings out).1.1))]
  | _ => supervise event out running_processes
  end.

(** ** [studio/app.py]: the synchronous endpoint *)

(** What [execute_sync] answers: the returned dictionary, the
    [HTTPException] it raises, or an exception of the stream passing
    through it. *)
Inductive SyncAnswer :=
| Response (trace_id : option string) (status : string)
           (result : option string)
| HTTPException (status_code : Z) (detail : option string)
| Unhandled (repr_e : string).

(** The [async for response in event_stream] loop over the events the
    stream delivers: the answer given from inside the loop, if any. *)
Fixpoint monitor (event_stream : list StudioServerEvent)
    : option SyncAnswer :=
  match event_stream with
  | [] => None
  | ExecutionStateChange execution_state :: event_stream =>
      match WorkflowExecutionState.status execution_state with
      | ExecutionStatus.success =>
          Some
            (Response (WorkflowExecutionState.trace_id execution_state)
               "success"
               (if truthy_dict (WorkflowExecutionState.result execution_state)
                then WorkflowExecutionState.result execution_state
                       ≫= (fun result => result !! "end")
                else None))
      | ExecutionStatus.error =>
          Some
            (HTTPException 500
               (WorkflowExecutionState.error execution_state))
      | _ => monitor event_stream
      end
  | _ :: event_stream => monitor event_stream
  end.

(** [execute_sync(event)].  The answer is [None] while the endpoint still
    awaits the next event of the stream. *)
Definition execute_sync (event : StudioClientEvent) (out : Outside)
    (running_processes : gmap string RunningProcess) : option SyncAnswer :=
  let run := execute_event_on_a_subprocess event out running_processes in
  match monitor (stream (trace run)) with
  | Some answer => Some answer
  | None =>
      match state run with
      | Returned =>
          Some
            (HTTPException 500
               (Some "Execution completed without success or error status"))
      | Raising repr_e => Some (Unhandled repr_e)
      | Closing | Suspended => None
      end
  end.

(** ** [studio/parser.py]: the fields of a component *)

(** A [Field] of [dsl.py], which is not among the sources, as far as
    [parser.py] reads it: its identifier, its type, and its value, which
    may be [None].  The types and the values are left open. *)
Module Field.
Record t (FieldType Value : Type) := mk {
  identifier : string;
  type : FieldType;
  value : option Value
}.
Arguments mk {FieldType Value}.
Arguments identifier {FieldType Value}.
Arguments type {FieldType Value}.
Arguments value {FieldType Value}.
End Field.

Section Fields.

Context {FieldType Value : Type}.

(** Truthiness of a value other than [None]. *)
Variable truth : Value -> bool.

(** [autoparse_field_value(field, value)], which decodes JSON text and
    converts numbers, is left open: it returns a value, possibly [None],
    or raises (the [repr] of the exception on the left). *)
Variable autoparse_field_value :
  Field.t FieldType Value -> option Value -> string + option Value.

(** Truthiness of [field.value]. *)
Definition has_value (field : Field.t FieldType Value) : bool :=
  match Field.value field with
  | Some v => truth v
  | None => false
  end.

(** [parse_fields(fields, autoparse)]: the dictionary comprehension, run
    over the fields in order; an exception of [autoparse_field_value]
    ends it. *)
Definition parse_fields (fields : list (Field.t FieldType Value))
    (autoparse : bool) : string + gmap string (option Value) :=
  foldl
    (fun parsed field =>
       match parsed with
       | inl repr_e => inl repr_e
       | inr parsed =>
           if has_value field then
             if autoparse then
               match autoparse_field_value field (Field.value field) with
               | inl repr_e => inl repr_e
               | inr v => inr (<[Field.identifier field := v]> parsed)
               end
             else inr (<[Field.identifier field := Field.value field]> parsed)
           else inr parsed
       end)
    (inr ∅) fields.

(** [autoparse_fields(fields, values)] *)
Definition autoparse_fields (fields : list (Field.t FieldType Value))
    (values : gmap string (option Value))
    : string + gmap string (option Value) :=
  foldl
    (fun parsed_values field =>
       match parsed_values with
       | inl repr_e => inl repr_e
       | inr parsed_values =>
           match values !! Field.identifier field with
           | None => inr parsed_values
           | Some v =>
               match autoparse_field_value field v with
               | inl repr_e => inl repr_e
               | inr v' =>
                   inr (<[Field.identifier field := v']> parsed_values)
               end
           end
       end)
    (inr ∅) fields.

End Fields.

(** * Auxiliary notions *)

(** The type tags [execute_event] has a [case] for. *)
Definition recognized (tag : string) : bool :=
  bool_decide
    (tag ∈ ["is_alive"; "execute_component"; "execute_flow";
            "execute_evaluation"; "execute_optimization"]).

(** The assignments a worker takes from its inbound queue: every event
    delivered before the first sentinel. *)
Fixpoint served (queue_in : list inbound) : list StudioClientEvent :=
  match queue_in with
  | [] => []
  | TimedOut :: rest => served rest
  | Item None :: _ => []
  | Item (Some event) :: rest => event :: served rest
  end.

(** Whether the sentinel is among the delivered items. *)
Fixpoint sentinel_sent (queue_in : list inbound) : bool :=
  match queue_in with
  | [] => false
  | Item None :: _ => true
  | _ :: rest => sentinel_sent rest
  end.

(** The three stop requests. *)
Definition is_stop (event : StudioClientEvent) : bool :=
  match event with
  | StopExecution _ | StopEvaluationExecution _ | StopOptimizationExecution _ =>
      true
  | _ => false
  end.

(** The execution id a stop request names. *)
Definition stop_id (event : StudioClientEvent) : option string :=
  if is_stop event then get_trace_id event else None.

(** The events of a supervised run: those the loop relayed, then the error
    of the timeout or exception handler. *)
Definition verdict (exit : loop_exit) : list StudioServerEvent :=
  match exit with
  | Expired => [Error {| message := "Execution timed out" |}]
  | Thrown repr_e => [Error {| message := "Unexpected error: " +:+ repr_e |}]
  | _ => []
  end.

(** A stretch of polls during which the loop keeps running: each poll
    happens within the budget, counted from the last relayed message (from
    [last_message_time] before the first one); it either relays a message
    other than [done] to a consumer that resumes, or finds the queue empty
    and the worker alive.  The result is the time of the last relay. *)
Fixpoint in_budget (timeout last_message_time : Q) (script : list poll)
    : option Q :=
  match script with
  | [] => Some last_message_time
  | Got now result (Some resumed) :: script =>
      if Qlt_bool (now - last_message_time) timeout && negb (is_Done result)
      then in_budget timeout resumed script
      else None
  | QueueEmpty now true :: script =>
      if Qlt_bool (now - last_message_time) timeout
      then in_budget timeout last_message_time script
      else None
  | _ => None
  end.

(** What the loop does on such a stretch: it yields each message and
    sleeps a tenth of a second on each empty read. *)
Fixpoint relay (script : list poll) : list action :=
  match script with
  | [] => []
  | Got _ result _ :: script => Yield result :: relay script
  | QueueEmpty _ _ :: script => Sleep 0.1 :: relay script
  | Broken _ _ :: script => relay script
  end.

(** An event on which [execute_sync] keeps reading: anything but an
    execution state change with status [success] or [error]. *)
Definition undecided (response : StudioServerEvent) : bool :=
  match response with
  | ExecutionStateChange execution_state =>
      match WorkflowExecutionState.status execution_state with
      | ExecutionStatus.running => true
      | _ => false
      end
  | _ => true
  end.

(** The value under ["end"] of the result, as the spec words it. *)
Definition terminal_output (execution_state : WorkflowExecutionState.t)
    : option string :=
  WorkflowExecutionState.result execution_state
    ≫= (fun result => result !! "end").


(** The messages a script has on the worker's queue, in order. *)
Definition results (script : list poll) : list StudioServerEvent :=
  omap (fun p => match p with Got _ result _ => Some result | _ => None end)
    script.

(** The state in which the generator is left, by the way control left the
    polling loop and by whether the consumer resumed after the error
    yielded by a handler. *)
Definition state_of (exit : loop_exit) (resumed : bool) : status :=
  match exit with
  | Finished => Returned
  | Expired | Thrown _ => if resumed then Returned else Closing
  | Closed => Closing
  | Starved => Suspended
  end.

(** The effects of the timeout branch and of the exception handler. *)
Definition handler_effects (exit : loop_exit) (process : Process)
    (resumed : bool) : list action :=
  match exit with
  | Expired =>
      Yield (Error {| message := "Execution timed out" |})
      :: (if resumed then kill_process process else [])
  | Thrown repr_e =>
      [Yield (Error {| message := "Unexpected error: " +:+ repr_e |})]
  | _ => []
  end.

(** No other coroutine touches the table while this one is suspended. *)
Definition undisturbed (out : Outside) : Prop :=
  forall running_processes, others out running_processes = running_processes.

(** The inputs of a component state change. *)
Definition component_inputs (event : StudioServerEvent)
    : option (gmap string string) :=
  match event with
  | ComponentStateChange payload =>
      ExecutionState.inputs (execution_state payload)
  | _ => None
  end.

(** The collaborator [execute_event] forwards for an event, if any. *)
Definition collaboration (ext : Collaborators) (event : StudioClientEvent)
    : option Collaboration :=
  match event with
  | ExecuteComponent payload => Some (execute_component ext payload)
  | ExecuteFlow payload => Some (execute_flow ext payload)
  | ExecuteEvaluation payload => Some (execute_evaluation ext payload)
  | ExecuteOptimization payload => Some (execute_optimization ext payload)
  | _ => None
  end.

(** Whether the generator is still polling. *)
Definition suspended (s : status) : bool :=
  match s with Suspended => true | _ => false end.

(** * Sample inputs *)

(** A collaborator that yields nothing and ends normally. *)
Definition silent : Collaboration := {| produced := []; raised := None |}.

(** Collaborators that all yield nothing. *)
Definition quiet : Collaborators :=
  {| execute_component := fun _ => silent;
     execute_flow := fun _ => silent;
     execute_evaluation := fun _ => silent;
     execute_optimization := fun _ => silent |}.

(** A stop request for the execution ["t1"], not scoped to a node. *)
Definition stop_t1 : StudioClientEvent :=
  StopExecution (StopExecutionPayload.mk "t1" None).

(** The record of a worker with pid 7 whose queue is queue 1. *)
Definition worker7 : RunningProcess :=
  {| process := {| pid := Some 7%nat |}; queue := 1%nat |}.

(** An outside in which the pool hands out the worker with pid 9 and
    queue 2, the queue delivers nothing, and no other coroutine touches
    the table. *)
Definition calm : Outside :=
  {| submitted := ({| pid := Some 9%nat |}, 2%nat);
     start_time := 0;
     polls := [];
     error_resumed := true;
     alive_at_exit := true;
     others := fun running_processes => running_processes;
     readings := (1%Q, 1%Q, 1%Q) |}.

(** The worker's first message is [done]. *)
Definition done_at_once : Outside :=
  {| submitted := ({| pid := Some 9%nat |}, 2%nat);
     start_time := 0;
     polls := [Got 0.1 Done (Some 0.1%Q)];
     error_resumed := true;
     alive_at_exit := true;
     others := fun running_processes => running_processes;
     readings := (1%Q, 1%Q, 1%Q) |}.

(** A table in which the execution ["t1"] is running on [worker7]. *)
Definition t1_running : gmap string RunningProcess := {["t1" := worker7]}.

(** A process with no timer pending and no exit under way. *)
Definition fresh_process : Proc :=
  {| clock := 0; timer := None; exiting := None; forced := None |}.

(** A request to execute the flow ["t1"]. *)
Definition flow_t1 : StudioClientEvent :=
  ExecuteFlow
    (ExecuteFlowPayload.mk "t1" {| api_key := "k"; workflow_id := "w" |}
       None None).

(** An execution state of the flow ["t1"] with the given status. *)
Definition flow_state (status : ExecutionStatus.t) : WorkflowExecutionState.t :=
  WorkflowExecutionState.mk status (Some "t1")
    (Some {["end" := "42"; "score" := "1"]}) (Some "boom").

(** A worker that reports [running], then the given status, then [done]. *)
Definition reporting (status : ExecutionStatus.t) : Outside :=
  {| submitted := ({| pid := Some 9%nat |}, 2%nat);
     start_time := 0;
     polls := [Got 0.1 (ExecutionStateChange (flow_state ExecutionStatus.running))
                 (Some 0.1%Q);
               Got 0.2 (ExecutionStateChange (flow_state status)) (Some 0.2%Q);
               Got 0.3 Done (Some 0.3%Q)];
     error_resumed := true;
     alive_at_exit := true;
     others := fun running_processes => running_processes;
     readings := (1%Q, 1%Q, 1%Q) |}.

(** A live worker that is silent at 60 and at 120.05 seconds. *)
Definition timed_out : Outside :=
  {| submitted := ({| pid := Some 9%nat |}, 2%nat);
     start_time := 0;
     polls := [QueueEmpty 60 true; QueueEmpty 120.05 true];
     error_resumed := true;
     alive_at_exit := true;
     others := fun running_processes => running_processes;
     readings := (1%Q, 1%Q, 1%Q) |}.

(** A worker that is silent at 60 seconds and silent and dead at 120.05
    seconds. *)
Definition crashed : Outside :=
  {| submitted := ({| pid := Some 9%nat |}, 2%nat);
     start_time := 0;
     polls := [QueueEmpty 60 true; QueueEmpty 120.05 false];
     error_resumed := true;
     alive_at_exit := false;
     others := fun running_processes => running_processes;
     readings := (1%Q, 1%Q, 1%Q) |}.

(** A worker that reports progress after 100 seconds and then falls
    silent: the polls at 150 and 200 seconds are beyond 120 seconds from
    the start but within 120 seconds of the relayed message. *)
Definition stalled : Outside :=
  {| submitted := ({| pid := Some 9%nat |}, 2%nat);
     start_time := 0;
     polls := [QueueEmpty 50 true;
               Got 100 (Debug {| debug_message := "ping" |}) (Some 100%Q);
               QueueEmpty 150 true; QueueEmpty 200 true;
               QueueEmpty 220.5 true];
     error_resumed := true;
     alive_at_exit := true;
     others := fun running_processes => running_processes;
     readings := (1%Q, 1%Q, 1%Q) |}.




(** A request to execute the node ["n1"] in the execution ["t1"]. *)
Definition component_t1 : StudioClientEvent :=
  ExecuteComponent
    (ExecuteComponentPayload.mk "t1" {| api_key := "k"; workflow_id := "w" |}
       "n1" ∅).

(** Collaborators of which [execute_component] yields one event and then
    raises, the exception being caught at clock reading 5. *)
Definition brittle : Collaborators :=
  {| execute_component :=
       fun _ => {| produced := [IsAliveResponse];
                   raised := Some ("ValueError('boom')", 5%Q) |};
     execute_flow := fun _ => silent;
     execute_evaluation := fun _ => silent;
     execute_optimization := fun _ => silent |}.

(** A worker whose queue holds [message], read at 130 seconds, after an
    empty read at 60 seconds; the consumer resumes at 130 seconds. *)
Definition late (message : StudioServerEvent) : Outside :=
  {| submitted := ({| pid := Some 9%nat |}, 2%nat);
     start_time := 0;
     polls := [QueueEmpty 60 true; Got 130 message (Some 130%Q)];
     error_resumed := true;
     alive_at_exit := true;
     others := fun running_processes => running_processes;
     readings := (1%Q, 1%Q, 1%Q) |}.

(** The consumer closes the stream at the first relayed message. *)
Definition hung_up : Outside :=
  {| submitted := ({| pid := Some 9%nat |}, 2%nat);
     start_time := 0;
     polls := [Got 1 IsAliveResponse None];
     error_resumed := true;
     alive_at_exit := true;
     others := fun running_processes => running_processes;
     readings := (1%Q, 1%Q, 1%Q) |}.

(** Reading the queue fails at the second poll. *)
Definition broken_pipe : Outside :=
  {| submitted := ({| pid := Some 9%nat |}, 2%nat);
     start_time := 0;
     polls := [QueueEmpty 1 true; Broken 2 "EOFError()"];
     error_resumed := true;
     alive_at_exit := true;
     others := fun running_processes => running_processes;
     readings := (1%Q, 1%Q, 1%Q) |}.

(** A stop request for the evaluation run ["t1"]. *)
Definition stop_evaluation_t1 : StudioClientEvent :=
  StopEvaluationExecution
    (StopEvaluationExecutionPayload.mk {| api_key := "k"; workflow_id := "w" |}
       "t1").

(** A table in which another execution, ["t2"], is running. *)
Definition t2_running : gmap string RunningProcess :=
  {["t2" := {| process := {| pid := Some 8%nat |}; queue := 3%nat |}]}.

(** A worker that relays a component error and then falls silent beyond
    the budget. *)
Definition failed_quietly : Outside :=
  {| submitted := ({| pid := Some 9%nat |}, 2%nat);
     start_time := 0;
     polls := [Got 1 (component_error_event "t1" "n1" "boom" 1) (Some 1%Q);
               QueueEmpty 130 true];
     error_resumed := true;
     alive_at_exit := true;
     others := fun running_processes => running_processes;
     readings := (1%Q, 1%Q, 1%Q) |}.

(** A request to execute a flow whose trace id is the empty string. *)
Definition flow_unnamed : StudioClientEvent :=
  ExecuteFlow
    (ExecuteFlowPayload.mk "" {| api_key := "k"; workflow_id := "w" |}
       None None).

(** Fields with text values: ["a"] given twice, ["b"] empty, ["c"] absent. *)
Definition sample_fields : list (Field.t unit string) :=
  [Field.mk "a" () (Some "1"); Field.mk "b" () (Some "");
   Field.mk "a" () (Some "2"); Field.mk "c" () None].

(** A text is truthy when it is not empty. *)
Definition nonempty (s : string) : bool := negb (bool_decide (s = "")).

(** A parser that accepts every value but ["bad"]. *)
Definition picky (field : Field.t unit string) (v : option string)
    : string + option string :=
  if bool_decide (v = Some "bad") then inl "ValueError()" else inr v.

(** * Properties *)

(** ** The event constructors *)

(** C10.  [component_error_event] ignores its [trace_id] argument: the
    event it returns has the given [node_id] as [component_id] and an
    execution state with status [error], the error message, a [finished_at]
    timestamp and no [trace_id]; [start_component_event] puts the
    [trace_id] it is given into the execution state. *)
Theorem component_error_event_drops_trace_id :
  forall (trace_id trace_id' node_id error : string) (now : Q),
    component_error_event trace_id node_id error now
      = component_error_event trace_id' node_id error now
    /\ (exists execution_state,
          component_error_event trace_id node_id error now
            = ComponentStateChange
                {| component_id := node_id;
                   execution_state := execution_state |}
          /\ ExecutionState.status execution_state = ExecutionStatus.error
          /\ ExecutionState.error execution_state = Some error
          /\ ExecutionState.timestamps execution_state ≫= finished_at
               = Some (now_ms now)
          /\ ExecutionState.trace_id execution_state = None)
    /\ (forall node inputs,
          exists execution_state,
            start_component_event node trace_id inputs now
              = ComponentStateChange
                  {| component_id := id node;
                     execution_state := execution_state |}
            /\ ExecutionState.trace_id execution_state = Some trace_id).
Proof.
  intros trace_id trace_id' node_id error now.
  split; [reflexivity|]. split.
  - eexists. split; [reflexivity|]. repeat split.
  - intros node inputs. eexists. split; reflexivity.
Qed.

(** ** The worker runtime *)

(** C2, as stated, fails: for an event with an unrecognized tag the stream
    of [execute_event] is not an [error] followed by [done] and nothing
    else, because it starts with a [debug] event. *)
Lemma unrecognized_stream_starts_with_debug :
  recognized (type stop_t1) = false
  /\ ~ (exists payload, execute_event quiet stop_t1 = [Error payload; Done]).
Proof.
  split; [reflexivity|].
  intros [payload H]. discriminate H.
Qed.

(** C2, amended.  For an event whose type tag has no [case], the stream is
    the [debug] event every execution starts with, one [error] event naming
    the tag, and [done]. *)
Theorem unrecognized_event_stream :
  forall (ext : Collaborators) (event : StudioClientEvent),
    recognized (type event) = false ->
    execute_event ext event
      = [Debug {| debug_message := "server starting execution" |};
         Error {| message :=
                    "Unknown event type from client: " +:+ type event |};
         Done].
Proof.
  intros ext event H.
  destruct event; first [discriminate H | reflexivity].
Qed.

Lemma unrecognized_event_stream_witness :
  execute_event quiet stop_t1
    = [Debug {| debug_message := "server starting execution" |};
       Error {| message :=
                  "Unknown event type from client: stop_execution" |};
       Done].
Proof.
  apply (unrecognized_event_stream quiet stop_t1). reflexivity.
Defined.

Lemma outbound_app (xs ys : list worker_effect) :
  outbound (xs ++ ys) = outbound xs ++ outbound ys.
Proof. unfold outbound. apply omap_app. Qed.

Lemma outbound_PutOut (events : list StudioServerEvent) :
  outbound (map PutOut events) = events.
Proof.
  induction events as [|e events IH]; [reflexivity|].
  cbn. unfold outbound in IH. rewrite IH. reflexivity.
Qed.

Lemma worker_loop_outbound (ext : Collaborators) (queue_in : list inbound) :
  outbound (worker_loop ext queue_in).1
    = concat (map (execute_event ext) (served queue_in)).
Proof.
  induction queue_in as [|[|[event|]] rest IH]; cbn [worker_loop served].
  - reflexivity.
  - exact IH.
  - destruct (worker_loop ext rest) as [effects st]. cbn [fst] in *.
    rewrite outbound_app, outbound_PutOut, IH. reflexivity.
  - reflexivity.
Qed.

Lemma worker_loop_state (ext : Collaborators) (queue_in : list inbound) :
  (worker_loop ext queue_in).2
    = if sentinel_sent queue_in then Exited else Waiting.
Proof.
  induction queue_in as [|[|[event|]] rest IH]; cbn [worker_loop sentinel_sent].
  - reflexivity.
  - exact IH.
  - destruct (worker_loop ext rest) as [effects st]. exact IH.
  - reflexivity.
Qed.

Lemma stream_app (xs ys : list action) :
  stream (xs ++ ys) = stream xs ++ stream ys.
Proof. unfold stream. apply omap_app. Qed.

Lemma stream_kill_process (process : Process) :
  stream (kill_process process) = [].
Proof. unfold kill_process. destruct (pid process); reflexivity. Qed.

Lemma stream_cleanup event process alive running_processes :
  stream (cleanup event process alive running_processes).1 = [].
Proof.
  unfold cleanup. cbn [fst].
  destruct alive; [apply stream_kill_process | reflexivity].
Qed.

(** The last effects of a supervised run that has left the polling loop
    are those of [finally]. *)
Lemma supervise_ends_with_cleanup event out running_processes :
  state (supervise event out running_processes) <> Suspended ->
  exists before,
    trace (supervise event out running_processes)
      = before ++
        (cleanup event (submitted out).1 (alive_at_exit out)
           (others out
              (register event (submitted out).1 (submitted out).2
                 running_processes))).1.
Proof.
  unfold supervise. destruct (submitted out) as [process queue]. cbn [fst snd].
  destruct (poll_loop _ _ _ _) as [relayed exit].
  destruct (cleanup _ _ _ _) as [last running_processes'] eqn:Hc. cbn [fst].
  destruct exit; cbn [trace state]; intros Hs.
  - exists relayed. reflexivity.
  - destruct (error_resumed out); cbn [trace];
      eexists; rewrite !app_assoc; reflexivity.
  - eexists. rewrite !app_assoc. reflexivity.
  - exists relayed. reflexivity.
  - contradiction.
Qed.

(** C4, as stated, fails: a worker that has served one assignment takes
    the next one from its inbound queue, puts its events on the same
    outbound queue, and goes on waiting. *)
Lemma worker_serves_a_second_assignment :
  let queue_in := [Item (Some IsAlive); Item (Some stop_t1)] in
  outbound (event_worker quiet queue_in).1
    = execute_event quiet IsAlive ++ execute_event quiet stop_t1
  /\ (event_worker quiet queue_in).2 = Waiting
  /\ outbound (event_worker quiet queue_in).1 <> execute_event quiet IsAlive.
Proof.
  cbn zeta. split; [reflexivity|]. split; [reflexivity|]. discriminate.
Qed.

(** C4, amended.  The worker runtime itself is not single-use: it serves,
    in order, every assignment its inbound queue delivers before the
    sentinel, returning to the queue after each, and leaves its loop only
    on the sentinel.  A worker is used once because its owner ends it: a
    supervised run that leaves the polling loop and finds the worker alive
    ends by sending it the termination signal. *)
Theorem worker_is_ended_by_its_owner :
  forall (ext : Collaborators) (queue_in : list inbound)
         (event : StudioClientEvent) (out : Outside)
         (running_processes : gmap string RunningProcess),
    outbound (event_worker ext queue_in).1
      = concat (map (execute_event ext) (served queue_in))
    /\ (event_worker ext queue_in).2
         = (if sentinel_sent queue_in then Exited else Waiting)
    /\ (state (supervise event out running_processes) <> Suspended ->
        alive_at_exit out = true ->
        exists before,
          trace (supervise event out running_processes)
            = before ++ kill_process (submitted out).1).
Proof.
  intros ext queue_in event out running_processes.
  split; [|split].
  - unfold event_worker.
    pose proof (worker_loop_outbound ext queue_in) as H.
    destruct (worker_loop ext queue_in) as [effects st]. exact H.
  - unfold event_worker.
    pose proof (worker_loop_state ext queue_in) as H.
    destruct (worker_loop ext queue_in) as [effects st]. exact H.
  - intros Hs Halive.
    destruct (supervise_ends_with_cleanup event out running_processes Hs)
      as [before H].
    exists before. rewrite H. unfold cleanup. cbn [fst].
    rewrite Halive. reflexivity.
Qed.

Lemma worker_is_ended_by_its_owner_witness :
  exists before,
    trace (supervise IsAlive done_at_once ∅) = before ++ [Kill 9 SIGUSR1].
Proof.
  destruct (worker_is_ended_by_its_owner quiet [] IsAlive done_at_once ∅)
    as (_ & _ & H).
  apply H; [discriminate | reflexivity].
Defined.

(** ** The terminal marker *)

Lemma registered_true trace_id (running_processes : gmap string RunningProcess) record :
  running_processes !! trace_id = Some record ->
  registered trace_id running_processes = true.
Proof. intros H. unfold registered. apply bool_decide_eq_true. eauto. Qed.

Lemma registered_false trace_id (running_processes : gmap string RunningProcess) :
  running_processes !! trace_id = None ->
  registered trace_id running_processes = false.
Proof.
  intros H. unfold registered. apply bool_decide_eq_false.
  rewrite H. intros [? ?]. discriminate.
Qed.

(** In the effects of the polling loop a relayed [done] is the last
    yield, and the loop has ended through [break] or through the consumer
    closing the generator there. *)
Lemma poll_loop_done_last timeout script :
  forall last_message_time time_since_last_message relayed exit pre post,
    poll_loop timeout last_message_time time_since_last_message script
      = (relayed, exit) ->
    stream relayed = pre ++ Done :: post ->
    post = [] /\ (exit = Finished \/ exit = Closed).
Proof.
  induction script as [|p script IH];
    intros last since relayed exit pre post Hloop Hs; cbn [poll_loop] in Hloop;
    destruct (Qlt_bool since timeout).
  - injection Hloop as <- <-. destruct pre; discriminate Hs.
  - injection Hloop as <- <-. destruct pre; discriminate Hs.
  - destruct p as [now result [resumed|] | now alive | now repr_e].
    + destruct (is_Done result) eqn:Hd.
      * injection Hloop as <- <-. cbn in Hs.
        destruct pre as [|e [|e' pre]]; try discriminate Hs.
        injection Hs as _ <-. auto.
      * destruct (poll_loop timeout resumed _ script) as [relayed' exit'] eqn:Hrec.
        injection Hloop as <- <-. cbn in Hs.
        destruct pre as [|e pre].
        -- injection Hs as -> _. discriminate Hd.
        -- injection Hs as _ Hs. eapply IH; eauto.
    + injection Hloop as <- <-. cbn in Hs.
      destruct pre as [|e [|e' pre]]; try discriminate Hs.
      injection Hs as _ <-. auto.
    + destruct (Qlt_bool 10 timeout && negb alive).
      * injection Hloop as <- <-. destruct pre; discriminate Hs.
      * destruct (poll_loop timeout last _ script) as [relayed' exit'] eqn:Hrec.
        injection Hloop as <- <-. cbn in Hs. eapply IH; eauto.
    + injection Hloop as <- <-. destruct pre; discriminate Hs.
  - injection Hloop as <- <-. destruct pre; discriminate Hs.
Qed.

(** Every event the polling loop yields was read from the worker's queue. *)
Lemma poll_loop_relays timeout script :
  forall last_message_time time_since_last_message relayed exit event,
    poll_loop timeout last_message_time time_since_last_message script
      = (relayed, exit) ->
    event ∈ stream relayed ->
    exists now resumed, Got now event resumed ∈ script.
Proof.
  induction script as [|p script IH];
    intros last since relayed exit event Hloop Hin; cbn [poll_loop] in Hloop;
    destruct (Qlt_bool since timeout);
    try (injection Hloop as <- <-; cbn in Hin; apply elem_of_nil in Hin;
         contradiction).
  destruct p as [now result [resumed|] | now alive | now repr_e].
  - destruct (is_Done result).
    + injection Hloop as <- <-. cbn in Hin.
      apply list_elem_of_singleton in Hin as ->.
      eexists _, _. apply list_elem_of_here.
    + destruct (poll_loop timeout resumed _ script) as [relayed' exit'] eqn:Hrec.
      injection Hloop as <- <-. cbn in Hin.
      apply elem_of_cons in Hin as [->|Hin].
      * eexists _, _. apply list_elem_of_here.
      * destruct (IH _ _ _ _ _ Hrec Hin) as (n & r & H).
        eexists _, _. apply list_elem_of_further, H.
  - injection Hloop as <- <-. cbn in Hin.
    apply list_elem_of_singleton in Hin as ->.
    eexists _, _. apply list_elem_of_here.
  - destruct (Qlt_bool 10 timeout && negb alive).
    + injection Hloop as <- <-. cbn in Hin. apply elem_of_nil in Hin.
      contradiction.
    + destruct (poll_loop timeout last _ script) as [relayed' exit'] eqn:Hrec.
      injection Hloop as <- <-. cbn in Hin.
      destruct (IH _ _ _ _ _ Hrec Hin) as (n & r & H).
      eexists _, _. apply list_elem_of_further, H.
  - injection Hloop as <- <-. cbn in Hin. apply elem_of_nil in Hin.
    contradiction.
Qed.

Lemma not_stop_supervised event out running_processes :
  is_stop event = false ->
  execute_event_on_a_subprocess event out running_processes
    = supervise event out running_processes.
Proof. destruct event; intros H; first [discriminate H | reflexivity]. Qed.

Lemma supervise_stream event out running_processes :
  stream (trace (supervise event out running_processes))
    = let (relayed, exit) :=
        poll_loop (timeout_without_messages event) (start_time out) 0
          (polls out) in
      stream relayed ++ verdict exit.
Proof.
  unfold supervise. destruct (submitted out) as [process queue].
  destruct (poll_loop _ _ _ _) as [relayed exit].
  pose proof (stream_cleanup event process (alive_at_exit out)
                (others out (register event process queue running_processes)))
    as Hc.
  destruct (cleanup _ _ _ _) as [last running_processes'].
  cbn [fst] in Hc.
  destruct exit; cbn [verdict];
    try destruct (error_resumed out); cbn [trace];
    rewrite ?stream_app, ?Hc, ?app_nil_r; try reflexivity.
  change (Yield ?e :: ?l) with ([Yield e] ++ l).
  rewrite stream_app, stream_kill_process. reflexivity.
Qed.

Lemma stream_stop_process trace_id others running_processes effects table' :
  stop_process trace_id others running_processes = Some (effects, table') ->
  stream effects = [].
Proof.
  unfold stop_process. destruct (running_processes !! trace_id); [|discriminate].
  intros [= <- _]. cbn.
  destruct (others running_processes !! trace_id);
    [apply stream_kill_process | reflexivity].
Qed.

Lemma stop_branch_stream trace_id out running_processes after :
  stream (trace (stop_branch trace_id out running_processes after))
    = if registered trace_id running_processes then stream after else [].
Proof.
  unfold stop_branch. destruct (registered trace_id running_processes) eqn:Hr;
    [|reflexivity].
  destruct (stop_process _ _ _) as [[effects table']|] eqn:Hs.
  - cbn [trace]. rewrite stream_app, (stream_stop_process _ _ _ _ _ Hs).
    reflexivity.
  - unfold stop_process in Hs. unfold registered in Hr.
    apply bool_decide_eq_true in Hr as [record Hr]. rewrite Hr in Hs.
    discriminate Hs.
Qed.

(** A stop branch yields at most one event, and it is no [done]. *)
Lemma stop_stream_without_done event out running_processes :
  is_stop event = true ->
  Done ∉ stream (trace (execute_event_on_a_subprocess event out
                           running_processes)).
Proof.
  destruct event; intros H; try discriminate H;
    cbn [execute_event_on_a_subprocess]; cbv zeta;
    rewrite stop_branch_stream;
    match goal with |- context [registered ?i ?m] =>
      destruct (registered i m) end;
    try apply not_elem_of_nil.
  - destruct (StopExecutionPayload.node_id payload) as [node_id|];
      [destruct (truthy (Some node_id))|];
      cbn; intros Hin; apply list_elem_of_singleton in Hin; discriminate Hin.
  - cbn. intros Hin. apply list_elem_of_singleton in Hin. discriminate Hin.
  - cbn. intros Hin. apply list_elem_of_singleton in Hin. discriminate Hin.
Qed.

Lemma poll_loop_in_budget timeout rest script :
  forall last since last',
    Qlt_bool since timeout = true ->
    in_budget timeout last script = Some last' ->
    exists since',
      Qlt_bool since' timeout = true
      /\ poll_loop timeout last since (script ++ rest)
           = (relay script ++ (poll_loop timeout last' since' rest).1,
              (poll_loop timeout last' since' rest).2).
Proof.
  induction script as [|p script IH]; intros last since last' Hsince Hb.
  - injection Hb as <-. exists since. split; [exact Hsince|].
    cbn [app relay]. destruct (poll_loop timeout last since rest); reflexivity.
  - cbn [app poll_loop]. rewrite Hsince.
    destruct p as [now result [resumed|] | now [|] | now repr_e];
      cbn [in_budget] in Hb; try discriminate Hb.
    + destruct (Qlt_bool (now - last) timeout && negb (is_Done result)) eqn:Hc;
        [|discriminate Hb].
      apply andb_prop in Hc as [Hnow Hd]. apply negb_true_iff in Hd.
      rewrite Hd.
      destruct (IH resumed (now - last)%Q last' Hnow Hb) as (since' & Hs' & ->).
      exists since'. split; [exact Hs'|]. reflexivity.
    + destruct (Qlt_bool (now - last) timeout) eqn:Hnow; [|discriminate Hb].
      rewrite andb_false_r.
      destruct (IH last (now - last)%Q last' Hnow Hb) as (since' & Hs' & ->).
      exists since'. split; [exact Hs'|]. reflexivity.
Qed.

Lemma timeout_without_messages_positive event :
  Qlt_bool 0 (timeout_without_messages event) = true.
Proof. destruct event; reflexivity. Qed.

Lemma stream_relay_in_budget timeout script :
  forall last last',
    in_budget timeout last script = Some last' ->
    Done ∉ stream (relay script).
Proof.
  induction script as [|p script IH]; intros last last' Hb.
  - apply not_elem_of_nil.
  - destruct p as [now result [resumed|] | now [|] | now repr_e];
      cbn [in_budget] in Hb; try discriminate Hb.
    + destruct (Qlt_bool (now - last) timeout && negb (is_Done result)) eqn:Hc;
        [|discriminate Hb].
      apply andb_prop in Hc as [_ Hd]. apply negb_true_iff in Hd.
      cbn. intros Hin. apply elem_of_cons in Hin as [<-|Hin];
        [discriminate Hd | exact (IH _ _ Hb Hin)].
    + destruct (Qlt_bool (now - last) timeout); [|discriminate Hb].
      cbn. exact (IH _ _ Hb).
Qed.

(** A [done] read within the budget ends the loop, and the run, at once. *)
Lemma supervise_finishes_on_done event out running_processes
    active rest now resumed last :
  polls out = active ++ Got now Done (Some resumed) :: rest ->
  in_budget (timeout_without_messages event) (start_time out) active
    = Some last ->
  stream (trace (supervise event out running_processes))
    = stream (relay active) ++ [Done]
  /\ state (supervise event out running_processes) = Returned.
Proof.
  intros Hpolls Hbudget.
  destruct (poll_loop_in_budget _ (Got now Done (Some resumed) :: rest) _ _ _ _
              (timeout_without_messages_positive event) Hbudget)
    as (since' & Hs' & Hloop).
  cbn [poll_loop] in Hloop. rewrite Hs' in Hloop. cbn [is_Done fst snd] in Hloop.
  split.
  - rewrite supervise_stream, Hpolls, Hloop. cbn [verdict].
    rewrite app_nil_r, stream_app. reflexivity.
  - unfold supervise. destruct (submitted out) as [process queue].
    rewrite Hpolls, Hloop. destruct (cleanup _ _ _ _). reflexivity.
Qed.

Lemma supervised_done_last event out running_processes pre post :
  stream (trace (supervise event out running_processes))
    = pre ++ Done :: post ->
  post = [].
Proof.
  rewrite supervise_stream.
  destruct (poll_loop _ _ _ _) as [relayed exit] eqn:Hloop.
  intros Hs.
  assert (Hrelayed : verdict exit = [] \/ Done ∈ stream relayed).
  { destruct exit; cbn [verdict] in *; auto; right.
    - assert (Hin : Done ∈ stream relayed ++
                      [Error {| message := "Execution timed out" |}])
        by (rewrite Hs; apply elem_of_app; right; apply list_elem_of_here).
      apply elem_of_app in Hin as [Hin|Hin]; [exact Hin|].
      apply list_elem_of_singleton in Hin. discriminate Hin.
    - assert (Hin : Done ∈ stream relayed ++
                      [Error {| message := "Unexpected error: " +:+ repr_e |}])
        by (rewrite Hs; apply elem_of_app; right; apply list_elem_of_here).
      apply elem_of_app in Hin as [Hin|Hin]; [exact Hin|].
      apply list_elem_of_singleton in Hin. discriminate Hin. }
  destruct Hrelayed as [Hv|Hin].
  - rewrite Hv, app_nil_r in Hs.
    eapply poll_loop_done_last in Hs as [Hs _]; eauto.
  - apply list_elem_of_split in Hin as (pre' & post' & Hsplit).
    destruct (poll_loop_done_last _ _ _ _ _ _ _ _ Hloop Hsplit) as [-> Hexit].
    destruct Hexit as [-> | ->]; cbn [verdict] in Hs;
      rewrite app_nil_r in Hs;
      eapply poll_loop_done_last in Hs as [Hs _]; eauto.
Qed.

Lemma supervised_done_relayed event out running_processes :
  Done ∈ stream (trace (supervise event out running_processes)) ->
  exists now resumed, Got now Done resumed ∈ polls out.
Proof.
  rewrite supervise_stream.
  destruct (poll_loop _ _ _ _) as [relayed exit] eqn:Hloop.
  intros Hin. apply elem_of_app in Hin as [Hin|Hin].
  - eapply poll_loop_relays; eauto.
  - destruct exit; cbn [verdict] in Hin;
      try (apply elem_of_nil in Hin; contradiction);
      apply list_elem_of_singleton in Hin; discriminate Hin.
Qed.

(** C1, as stated, fails: the stream of a stop request for a running
    execution ends, after the generator has returned, with the
    "Interrupted" error and not with [done]. *)
Lemma stop_stream_ends_without_done :
  let run := execute_event_on_a_subprocess stop_t1 calm t1_running in
  state run = Returned
  /\ stream (trace run) = [Error {| message := "Interrupted" |}]
  /\ last (stream (trace run)) <> Some Done.
Proof. vm_compute. repeat split. discriminate. Qed.

(** C1, amended.  The worker's generator [execute_event] ends every
    stream with [done].  The supervisor has no [done] of its own: a [done]
    in the caller's stream is one the supervisor read from the worker's
    queue and relayed, and it yields nothing after it; when it reads one
    within the budget, the stream ends with it and the generator returns.
    The streams of the three stop branches contain no [done], and neither
    does the stream of a run whose worker never put one on the queue, as
    on a timeout or a crash. *)
Theorem done_is_relayed_last :
  forall (ext : Collaborators) (event : StudioClientEvent) (out : Outside)
         (running_processes : gmap string RunningProcess),
    let run := execute_event_on_a_subprocess event out running_processes in
    last (execute_event ext event) = Some Done
    /\ (forall pre post, stream (trace run) = pre ++ Done :: post -> post = [])
    /\ (Done ∈ stream (trace run) ->
        is_stop event = false
        /\ exists now resumed, Got now Done resumed ∈ polls out)
    /\ (forall active rest now resumed last_message_time,
          is_stop event = false ->
          polls out = active ++ Got now Done (Some resumed) :: rest ->
          in_budget (timeout_without_messages event) (start_time out) active
            = Some last_message_time ->
          last (stream (trace run)) = Some Done /\ state run = Returned).
Proof.
  intros ext event out running_processes run. split; [|split; [|split]].
  - unfold execute_event. rewrite app_assoc. apply last_snoc.
  - intros pre post Hs. subst run.
    destruct (is_stop event) eqn:Hstop.
    + exfalso.
      apply (stop_stream_without_done event out running_processes Hstop).
      rewrite Hs. apply elem_of_app. right. apply list_elem_of_here.
    + rewrite not_stop_supervised in Hs by exact Hstop.
      eapply supervised_done_last; eauto.
  - intros Hin. subst run.
    destruct (is_stop event) eqn:Hstop.
    + exfalso.
      exact (stop_stream_without_done event out running_processes Hstop Hin).
    + split; [reflexivity|].
      rewrite not_stop_supervised in Hin by exact Hstop.
      eapply supervised_done_relayed; eauto.
  - intros active rest now resumed last_message_time Hstop Hpolls Hbudget.
    subst run. rewrite not_stop_supervised by exact Hstop.
    destruct (supervise_finishes_on_done event out running_processes
                _ _ _ _ _ Hpolls Hbudget) as [-> ->].
    split; [apply last_snoc | reflexivity].
Qed.

Lemma done_is_relayed_last_witness :
  (is_stop IsAlive = false
   /\ exists now resumed, Got now Done resumed ∈ polls done_at_once)
  /\ last (stream (trace (execute_event_on_a_subprocess IsAlive done_at_once ∅)))
       = Some Done
  /\ state (execute_event_on_a_subprocess IsAlive done_at_once ∅) = Returned.
Proof.
  destruct (done_is_relayed_last quiet IsAlive done_at_once ∅)
    as (_ & _ & Hrelayed & Hends).
  split.
  - apply Hrelayed. vm_compute. apply list_elem_of_here.
  - apply (Hends [] [] 0.1%Q 0.1%Q 0%Q); reflexivity.
Defined.

(** C3, as stated, fails: the stream of a stop request for an unknown id
    is empty, so it does not end with [done]. *)
Lemma unknown_stop_stream_is_empty :
  let run := execute_event_on_a_subprocess stop_t1 calm ∅ in
  state run = Returned
  /\ stream (trace run) = []
  /\ last (stream (trace run)) <> Some Done.
Proof. vm_compute. repeat split. discriminate. Qed.

(** C3, amended.  A [stop_execution] whose id has no record does nothing
    at all: the generator returns at once with no effect, so the stream
    is empty (no event, and no [done]) and the table is unchanged. *)
Theorem unknown_stop_is_a_no_op :
  forall (payload : StopExecutionPayload.t) (out : Outside)
         (running_processes : gmap string RunningProcess),
    running_processes !! StopExecutionPayload.trace_id payload = None ->
    execute_event_on_a_subprocess (StopExecution payload) out
      running_processes
      = {| trace := []; table := running_processes; state := Returned |}.
Proof.
  intros payload out running_processes H.
  cbn [execute_event_on_a_subprocess]. unfold stop_branch.
  rewrite (registered_false _ _ H). reflexivity.
Qed.

Lemma unknown_stop_is_a_no_op_witness :
  execute_event_on_a_subprocess stop_t1 calm ∅
    = {| trace := []; table := ∅; state := Returned |}.
Proof.
  apply (unknown_stop_is_a_no_op (StopExecutionPayload.mk "t1" None) calm ∅).
  reflexivity.
Defined.

(** ** The shutdown handler *)

(** A timer that is left pending does fire: had the handler only started
    the timer and called [sys.exit], three seconds of a stalled exit would
    end in [forceful_exit]. *)
Example pending_timer_fires :
  forced (elapse 3 (seq (timer_start 3.0) (sys_exit 0) fresh_process).1)
    = Some 1%Z.
Proof. reflexivity. Qed.

(** C8 does not hold of the code.  [sys.exit(0)] raises [SystemExit], so
    the [finally] clause cancels the timer while the handler is still
    running: the handler ends with [SystemExit] propagating and no timer
    pending, and however long the exit then stalls, [forceful_exit] is not
    run. *)
Theorem shutdown_handler_cancels_its_timer :
  forall (sig : Signal) (p : Proc) (stall : Q),
    (shutdown_handler sig p).2 = SystemExit 0
    /\ timer (shutdown_handler sig p).1 = None
    /\ forced (elapse stall (shutdown_handler sig p).1) = forced p.
Proof.
  intros sig p stall. unfold shutdown_handler, seq, try_finally.
  cbn. unfold elapse. cbn. destruct (forced p); auto.
Qed.

(** The same at a concrete input: [SIGTERM] arrives, the exit stalls for
    five seconds, and the process has not been forced to exit. *)
Example stalled_exit_is_not_forced :
  forced (elapse 5 (shutdown_handler SIGTERM fresh_process).1) = None.
Proof. reflexivity. Qed.

(** ** The synchronous endpoint *)

Lemma monitor_skips pre rest :
  forallb undecided pre = true ->
  monitor (pre ++ rest) = monitor rest.
Proof.
  induction pre as [|e pre IH]; [reflexivity|].
  cbn [forallb]. intros H. apply andb_prop in H as [He Hpre].
  cbn [app monitor].
  destruct e as [| | st | | | | |]; auto.
  cbn in He. destruct (WorkflowExecutionState.status st); try discriminate He.
  auto.
Qed.

Lemma monitor_undecided event_stream :
  forallb undecided event_stream = true -> monitor event_stream = None.
Proof.
  intros H. rewrite <- (app_nil_r event_stream).
  rewrite monitor_skips by exact H. reflexivity.
Qed.

Lemma result_get_end (execution_state : WorkflowExecutionState.t) :
  (if truthy_dict (WorkflowExecutionState.result execution_state)
   then WorkflowExecutionState.result execution_state
          ≫= (fun result => result !! "end")
   else None) = terminal_output execution_state.
Proof.
  unfold terminal_output, truthy_dict.
  destruct (WorkflowExecutionState.result execution_state) as [m|];
    [|reflexivity].
  case_bool_decide as Hm; [|reflexivity].
  subst m. cbn. rewrite lookup_empty. reflexivity.
Qed.

(** C9.  [execute_sync] reads the supervisor's stream and forwards none of
    its events.  At the first execution state change whose status is
    [success] it returns the trace id, the status and the result's value
    under ["end"]; at the first whose status is [error] it raises an HTTP
    error (500) with that event's error message; if the stream ends
    without either, it raises the HTTP error "Execution completed without
    success or error status". *)
Theorem execute_sync_answers :
  forall (event : StudioClientEvent) (out : Outside)
         (running_processes : gmap string RunningProcess),
    let run := execute_event_on_a_subprocess event out running_processes in
    (forall pre execution_state post,
        stream (trace run) = pre ++ ExecutionStateChange execution_state :: post ->
        forallb undecided pre = true ->
        WorkflowExecutionState.status execution_state = ExecutionStatus.success ->
        execute_sync event out running_processes
          = Some (Response (WorkflowExecutionState.trace_id execution_state)
                    "success" (terminal_output execution_state)))
    /\ (forall pre execution_state post,
          stream (trace run) = pre ++ ExecutionStateChange execution_state :: post ->
          forallb undecided pre = true ->
          WorkflowExecutionState.status execution_state = ExecutionStatus.error ->
          execute_sync event out running_processes
            = Some (HTTPException 500
                      (WorkflowExecutionState.error execution_state)))
    /\ (forallb undecided (stream (trace run)) = true ->
        state run = Returned ->
        execute_sync event out running_processes
          = Some (HTTPException 500
                    (Some "Execution completed without success or error status"))).
Proof.
  intros event out running_processes run. unfold execute_sync. fold run.
  split; [|split].
  - intros pre st post Hs Hpre Hst.
    rewrite Hs, (monitor_skips _ _ Hpre). cbn [monitor]. rewrite Hst.
    rewrite result_get_end. reflexivity.
  - intros pre st post Hs Hpre Hst.
    rewrite Hs, (monitor_skips _ _ Hpre). cbn [monitor]. rewrite Hst.
    reflexivity.
  - intros Hs Hret. rewrite (monitor_undecided _ Hs), Hret. reflexivity.
Qed.

Lemma execute_sync_answers_witness :
  execute_sync flow_t1 (reporting ExecutionStatus.success) ∅
    = Some (Response (Some "t1") "success" (Some "42"))
  /\ execute_sync flow_t1 (reporting ExecutionStatus.error) ∅
       = Some (HTTPException 500 (Some "boom"))
  /\ execute_sync flow_t1 (reporting ExecutionStatus.running) ∅
       = Some (HTTPException 500
                 (Some "Execution completed without success or error status")).
Proof.
  split; [|split].
  - destruct (execute_sync_answers flow_t1 (reporting ExecutionStatus.success) ∅)
      as (H & _ & _).
    apply (H [ExecutionStateChange (flow_state ExecutionStatus.running)]
             (flow_state ExecutionStatus.success) [Done]);
      reflexivity.
  - destruct (execute_sync_answers flow_t1 (reporting ExecutionStatus.error) ∅)
      as (_ & H & _).
    apply (H [ExecutionStateChange (flow_state ExecutionStatus.running)]
             (flow_state ExecutionStatus.error) [Done]);
      reflexivity.
  - destruct (execute_sync_answers flow_t1 (reporting ExecutionStatus.running) ∅)
      as (_ & _ & H).
    apply H; reflexivity.
Defined.

(** ** The table of running processes *)

Lemma truthy_nonempty (trace_id : string) :
  truthy (Some trace_id) = true -> trace_id <> "".
Proof.
  unfold truthy. intros H. apply negb_true_iff, bool_decide_eq_false in H.
  exact H.
Qed.

Lemma nonempty_truthy (trace_id : string) :
  trace_id <> "" -> truthy (Some trace_id) = true.
Proof.
  intros H. unfold truthy. apply negb_true_iff, bool_decide_eq_false. exact H.
Qed.

Lemma registered_lookup trace_id (running_processes : gmap string RunningProcess) :
  registered trace_id running_processes = false ->
  running_processes !! trace_id = None.
Proof.
  unfold registered. intros H. apply bool_decide_eq_false in H.
  destruct (running_processes !! trace_id) eqn:E; [|reflexivity].
  exfalso. apply H. eauto.
Qed.

(** [if trace_id in running_processes: del running_processes[trace_id]]
    leaves no record for [trace_id]. *)
Lemma unregister_lookup trace_id (running_processes : gmap string RunningProcess) :
  (if registered trace_id running_processes
   then delete trace_id running_processes
   else running_processes) !! trace_id = None.
Proof.
  destruct (registered trace_id running_processes) eqn:H.
  - apply lookup_delete_eq.
  - apply registered_lookup, H.
Qed.

Lemma unregister_delete trace_id (running_processes : gmap string RunningProcess) :
  (if registered trace_id running_processes
   then delete trace_id running_processes
   else running_processes) = delete trace_id running_processes.
Proof.
  destruct (registered trace_id running_processes) eqn:H; [reflexivity|].
  symmetry. apply delete_id, registered_lookup, H.
Qed.

Lemma stop_branch_table trace_id out running_processes after :
  table (stop_branch trace_id out running_processes after) !! trace_id = None.
Proof.
  unfold stop_branch.
  destruct (registered trace_id running_processes) eqn:Hr.
  - unfold stop_process.
    destruct (running_processes !! trace_id) eqn:E.
    + cbn [table]. apply unregister_lookup.
    + exact E.
  - cbn [table]. apply registered_lookup, Hr.
Qed.

Lemma stop_branch_returns trace_id out running_processes after :
  state (stop_branch trace_id out running_processes after) = Returned.
Proof.
  unfold stop_branch.
  destruct (registered trace_id running_processes) eqn:Hr; [|reflexivity].
  unfold stop_process. unfold registered in Hr.
  apply bool_decide_eq_true in Hr as [record Hr]. rewrite Hr. reflexivity.
Qed.

Lemma supervise_table event out running_processes trace_id :
  get_trace_id event = Some trace_id ->
  trace_id <> "" ->
  state (supervise event out running_processes) <> Suspended ->
  table (supervise event out running_processes) !! trace_id = None.
Proof.
  intros Hid Hne. unfold supervise.
  destruct (submitted out) as [process queue].
  destruct (poll_loop _ _ _ _) as [relayed exit].
  assert (Hc : (cleanup event process (alive_at_exit out)
                  (others out (register event process queue running_processes))).2
               !! trace_id = None).
  { unfold cleanup. cbn [snd]. rewrite Hid, (nonempty_truthy _ Hne).
    apply unregister_lookup. }
  destruct (cleanup _ _ _ _) as [last running_processes']. cbn [snd] in Hc.
  destruct exit; try destruct (error_resumed out); cbn [table state];
    intros Hs; first [exact Hc | contradiction].
Qed.

(** C7.  The table is a dictionary keyed by the execution id, so it holds
    at most one record per id (its keys are pairwise distinct).  Registration leaves every existing record
    as it is, and when it changes the table, the event carries a
    non-empty id that had no record and the change is the insertion of the
    new worker's record under that id.  Whenever the supervisor's
    generator is left (by return, timeout, exception or the consumer
    closing it, and in the stop branches), the table has no record for
    the event's id. *)
Theorem one_record_per_execution :
  forall (event : StudioClientEvent) (out : Outside)
         (running_processes : gmap string RunningProcess)
         (process : Process) (queue : Queue),
    (forall trace_id record,
        running_processes !! trace_id = Some record ->
        register event process queue running_processes !! trace_id
          = Some record)
    /\ (register event process queue running_processes <> running_processes ->
        exists trace_id,
          get_trace_id event = Some trace_id
          /\ trace_id <> ""
          /\ running_processes !! trace_id = None
          /\ register event process queue running_processes
               = <[trace_id := {| process := process; queue := queue |}]>
                   running_processes)
    /\ (forall trace_id,
          get_trace_id event = Some trace_id ->
          trace_id <> "" ->
          state (execute_event_on_a_subprocess event out running_processes)
            <> Suspended ->
          table (execute_event_on_a_subprocess event out running_processes)
            !! trace_id = None)
    /\ NoDup (map_to_list
                (table (execute_event_on_a_subprocess event out
                          running_processes))).*1.
Proof.
  intros event out running_processes process queue.
  split; [|split; [|split]]; [| | |apply NoDup_fst_map_to_list].
  - intros trace_id record H. unfold register.
    destruct (get_trace_id event) as [id'|]; [|exact H].
    destruct (truthy (Some id') && negb (registered id' running_processes))
      eqn:Hc; [|exact H].
    apply andb_prop in Hc as [_ Hc]. apply negb_true_iff in Hc.
    apply registered_lookup in Hc.
    rewrite lookup_insert_ne; [exact H|]. intros ->. congruence.
  - unfold register. intros Hchange.
    destruct (get_trace_id event) as [id'|]; [|contradiction].
    destruct (truthy (Some id') && negb (registered id' running_processes))
      eqn:Hc; [|contradiction].
    apply andb_prop in Hc as [Ht Hc]. apply negb_true_iff in Hc.
    exists id'. repeat split.
    + apply truthy_nonempty, Ht.
    + apply registered_lookup, Hc.
  - intros trace_id Hid Hne.
    destruct (is_stop event) eqn:Hstop.
    + intros _.
      destruct event; try discriminate Hstop; cbn in Hid;
        injection Hid as <-; cbn [execute_event_on_a_subprocess]; cbv zeta;
        apply stop_branch_table.
    + rewrite not_stop_supervised by exact Hstop.
      apply supervise_table; assumption.
Qed.

Lemma one_record_per_execution_witness :
  register flow_t1 {| pid := Some 9%nat |} 2%nat t1_running !! "t1"
    = Some worker7
  /\ (exists trace_id,
        get_trace_id flow_t1 = Some trace_id
        /\ trace_id <> ""
        /\ (∅ : gmap string RunningProcess) !! trace_id = None
        /\ register flow_t1 {| pid := Some 9%nat |} 2%nat ∅
             = <[trace_id := {| process := {| pid := Some 9%nat |};
                               queue := 2%nat |}]> ∅)
  /\ table (execute_event_on_a_subprocess flow_t1 timed_out ∅) !! "t1" = None.
Proof.
  split; [|split].
  - destruct (one_record_per_execution flow_t1 timed_out t1_running
                {| pid := Some 9%nat |} 2%nat) as (H & _ & _ & _).
    apply H. reflexivity.
  - destruct (one_record_per_execution flow_t1 timed_out ∅
                {| pid := Some 9%nat |} 2%nat) as (_ & H & _ & _).
    apply H. vm_compute. discriminate.
  - destruct (one_record_per_execution flow_t1 timed_out ∅
                {| pid := Some 9%nat |} 2%nat) as (_ & _ & H & _).
    apply H; [reflexivity | discriminate | vm_compute; discriminate].
Defined.

(** ** Stopping an execution *)

Lemma stop_branch_registered trace_id out running_processes after record :
  running_processes !! trace_id = Some record ->
  stop_branch trace_id out running_processes after
    = {| trace :=
           ([Put (queue record) Done; Sleep 0.2] ++
            match others out running_processes !! trace_id with
            | Some record' => kill_process (process record')
            | None => []
            end) ++ after;
         table := delete trace_id (others out running_processes);
         state := Returned |}.
Proof.
  intros H. unfold stop_branch, stop_process.
  rewrite (registered_true _ _ _ H), H, unregister_delete. reflexivity.
Qed.







(** ** The inactivity budget *)

Lemma Qlt_bool_false (x y : Q) : (y <= x)%Q -> Qlt_bool x y = false.
Proof.
  intros H. unfold Qlt_bool. apply negb_false_iff, Qle_bool_iff, H.
Qed.

(** The loop gives up at the first empty read found at or beyond the
    budget. *)
Lemma poll_loop_expires timeout last since now rest :
  Qlt_bool since timeout = true ->
  (timeout <= now - last)%Q ->
  poll_loop timeout last since (QueueEmpty now true :: rest)
    = ([Sleep 0.1], Expired).
Proof.
  intros Hsince Hnow. cbn [poll_loop]. rewrite Hsince, andb_false_r.
  destruct rest; cbn [poll_loop]; rewrite (Qlt_bool_false _ _ Hnow);
    reflexivity.
Qed.

(** C6, as stated, fails: a worker that has put nothing on its queue for
    more than the 120 seconds of the budget, and is found dead at the poll
    that notices it, gets the "Runtime crashed" error; the stream has no
    timeout error and no signal is sent. *)
Lemma silent_dead_worker_is_reported_crashed :
  let run := execute_event_on_a_subprocess flow_t1 crashed ∅ in
  state run = Returned
  /\ trace run
       = [Sleep 0.1;
          Yield (Error {| message :=
                   "Unexpected error: Exception('Runtime crashed')" |})]
  /\ Error {| message := "Execution timed out" |} ∉ stream (trace run).
Proof.
  cbn zeta. split; [reflexivity|]. split; [reflexivity|].
  intros H. vm_compute in H. apply list_elem_of_singleton in H.
  discriminate H.
Qed.

(** C6, amended.  Take an execution that is not a stop request, a consumer
    that keeps reading, and a worker that stays alive.  If, after a
    stretch of polls within the budget, a poll finds the queue empty at or
    beyond the budget (counted from the last relayed message, whatever its
    kind), the supervisor yields the "Execution timed out" error and then
    sends the termination signal to the worker, and the generator ends.
    The budget is 120 seconds, and 120 minutes for [execute_optimization].
    A worker found dead at an empty read gets the "Runtime crashed" error
    instead. *)
Theorem silence_beyond_budget_times_out :
  forall (event : StudioClientEvent) (out : Outside)
         (running_processes : gmap string RunningProcess)
         (active rest : list poll) (now last : Q),
    is_stop event = false ->
    error_resumed out = true ->
    polls out = active ++ QueueEmpty now true :: rest ->
    in_budget (timeout_without_messages event) (start_time out) active
      = Some last ->
    (timeout_without_messages event <= now - last)%Q ->
    let run := execute_event_on_a_subprocess event out running_processes in
    trace run
      = relay active
        ++ [Sleep 0.1; Yield (Error {| message := "Execution timed out" |})]
        ++ kill_process (submitted out).1
        ++ (if alive_at_exit out then kill_process (submitted out).1 else [])
    /\ state run = Returned
    /\ timeout_without_messages event
         = match event with
           | ExecuteOptimization _ => 7200%Q
           | _ => 120%Q
           end.
Proof.
  intros event out running_processes active rest now last
    Hstop Hres Hpolls Hbudget Hnow run.
  subst run. rewrite not_stop_supervised by exact Hstop.
  split; [|split].
  - unfold supervise. destruct (submitted out) as [process queue]. cbn [fst].
    rewrite Hpolls.
    destruct (poll_loop_in_budget _ (QueueEmpty now true :: rest) _ _ _ _
                (timeout_without_messages_positive event) Hbudget)
      as (since' & Hs' & ->).
    rewrite (poll_loop_expires _ _ _ _ _ Hs' Hnow). cbn [fst snd].
    rewrite Hres. unfold cleanup.
    destruct (get_trace_id event); cbn [trace];
      rewrite <- !app_assoc; reflexivity.
  - unfold supervise. destruct (submitted out) as [process queue].
    rewrite Hpolls.
    destruct (poll_loop_in_budget _ (QueueEmpty now true :: rest) _ _ _ _
                (timeout_without_messages_positive event) Hbudget)
      as (since' & Hs' & ->).
    rewrite (poll_loop_expires _ _ _ _ _ Hs' Hnow). cbn [fst snd].
    rewrite Hres. destruct (cleanup _ _ _ _). reflexivity.
  - destruct event; reflexivity.
Qed.

Lemma silence_beyond_budget_times_out_witness :
  trace (execute_event_on_a_subprocess flow_t1 stalled ∅)
    = [Sleep 0.1; Yield (Debug {| debug_message := "ping" |});
       Sleep 0.1; Sleep 0.1; Sleep 0.1;
       Yield (Error {| message := "Execution timed out" |});
       Kill 9 SIGUSR1; Kill 9 SIGUSR1]
  /\ state (execute_event_on_a_subprocess flow_t1 stalled ∅) = Returned
  /\ timeout_without_messages flow_t1 = 120%Q.
Proof.
  apply (silence_beyond_budget_times_out flow_t1 stalled ∅
           [QueueEmpty 50 true;
            Got 100 (Debug {| debug_message := "ping" |}) (Some 100%Q);
            QueueEmpty 150 true; QueueEmpty 200 true]
           [] 220.5%Q 100%Q);
    try reflexivity.
  vm_compute. discriminate.
Defined.

(** * Further properties *)

(** ** Shapes of a supervised run *)

Lemma poll_loop_over timeout last since script :
  Qlt_bool since timeout = false ->
  poll_loop timeout last since script = ([], Expired).
Proof. intros H. destruct script; cbn [poll_loop]; rewrite H; reflexivity. Qed.

Lemma poll_loop_prefix timeout script :
  forall last since relayed exit,
    poll_loop timeout last since script = (relayed, exit) ->
    stream relayed `prefix_of` results script.
Proof.
  induction script as [|p script IH]; intros last since relayed exit Hloop;
    cbn [poll_loop] in Hloop; destruct (Qlt_bool since timeout);
    try (injection Hloop as <- <-; apply prefix_nil).
  destruct p as [now result [resumed|] | now alive | now repr_e].
  - destruct (is_Done result).
    + injection Hloop as <- <-. cbn. apply prefix_cons, prefix_nil.
    + destruct (poll_loop timeout resumed _ script) as [relayed' exit'] eqn:Hrec.
      injection Hloop as <- <-. cbn. apply prefix_cons. eapply IH; eauto.
  - injection Hloop as <- <-. cbn. apply prefix_cons, prefix_nil.
  - destruct (Qlt_bool 10 timeout && negb alive).
    + injection Hloop as <- <-. apply prefix_nil.
    + destruct (poll_loop timeout last _ script) as [relayed' exit'] eqn:Hrec.
      injection Hloop as <- <-. cbn. eapply IH; eauto.
  - injection Hloop as <- <-. apply prefix_nil.
Qed.

Lemma poll_loop_actions timeout script :
  forall last since relayed exit a,
    poll_loop timeout last since script = (relayed, exit) ->
    a ∈ relayed ->
    (exists event, a = Yield event) \/ a = Sleep 0.1.
Proof.
  induction script as [|p script IH]; intros last since relayed exit a Hloop Hin;
    cbn [poll_loop] in Hloop; destruct (Qlt_bool since timeout);
    try (injection Hloop as <- <-; apply elem_of_nil in Hin; contradiction).
  destruct p as [now result [resumed|] | now alive | now repr_e].
  - destruct (is_Done result).
    + injection Hloop as <- <-. apply list_elem_of_singleton in Hin as ->.
      eauto.
    + destruct (poll_loop timeout resumed _ script) as [relayed' exit'] eqn:Hrec.
      injection Hloop as <- <-.
      apply elem_of_cons in Hin as [->|Hin]; [eauto | eapply IH; eauto].
  - injection Hloop as <- <-. apply list_elem_of_singleton in Hin as ->. eauto.
  - destruct (Qlt_bool 10 timeout && negb alive).
    + injection Hloop as <- <-. apply elem_of_nil in Hin. contradiction.
    + destruct (poll_loop timeout last _ script) as [relayed' exit'] eqn:Hrec.
      injection Hloop as <- <-.
      apply elem_of_cons in Hin as [->|Hin]; [auto | eapply IH; eauto].
  - injection Hloop as <- <-. apply elem_of_nil in Hin. contradiction.
Qed.

(** The whole of a supervised run, from the result of its polling loop. *)
Lemma supervise_run event out running_processes relayed exit :
  poll_loop (timeout_without_messages event) (start_time out) 0 (polls out)
    = (relayed, exit) ->
  let registered_table :=
    register event (submitted out).1 (submitted out).2 running_processes in
  let finally :=
    cleanup event (submitted out).1 (alive_at_exit out)
      (others out registered_table) in
  supervise event out running_processes
    = match exit with
      | Starved =>
          {| trace := relayed; table := registered_table;
             state := Suspended |}
      | _ =>
          {| trace := relayed
                      ++ handler_effects exit (submitted out).1
                           (error_resumed out)
                      ++ finally.1;
             table := finally.2;
             state := state_of exit (error_resumed out) |}
      end.
Proof.
  intros Hloop. cbv zeta. unfold supervise.
  destruct (submitted out) as [process queue]. cbn [fst snd].
  rewrite Hloop. destruct (cleanup _ _ _ _) as [last table']. cbn [fst snd].
  destruct exit; cbn [handler_effects state_of];
    try destruct (error_resumed out); reflexivity.
Qed.

Lemma timeout_without_messages_long event :
  Qlt_bool 10 (timeout_without_messages event) = true.
Proof. destruct event; reflexivity. Qed.

(** The polling loop after a stretch of polls within the budget. *)
Lemma poll_loop_after event out active rest last tail exit :
  polls out = active ++ rest ->
  in_budget (timeout_without_messages event) (start_time out) active
    = Some last ->
  (forall since,
      Qlt_bool since (timeout_without_messages event) = true ->
      poll_loop (timeout_without_messages event) last since rest
        = (tail, exit)) ->
  poll_loop (timeout_without_messages event) (start_time out) 0 (polls out)
    = (relay active ++ tail, exit).
Proof.
  intros Hpolls Hbudget Hrest. rewrite Hpolls.
  destruct (poll_loop_in_budget _ rest _ _ _ _
              (timeout_without_messages_positive event) Hbudget)
    as (since' & Hs' & ->).
  rewrite (Hrest _ Hs'). reflexivity.
Qed.

Lemma stream_relay script : stream (relay script) = results script.
Proof.
  induction script as [|[now result resumed | now alive | now repr_e] script IH];
    cbn; rewrite ?IH; try reflexivity.
  - unfold stream in IH. unfold results. cbn. rewrite IH. reflexivity.
  - unfold stream in IH. exact IH.
  - exact IH.
Qed.

(** ** The event constructors, further *)

(** X1.  [start_component_event] treats an empty [inputs] dictionary like
    a missing one: the event is the same and carries no inputs; a
    non-empty dictionary is carried as it is. *)
Theorem start_component_event_inputs :
  forall (node : Node) (trace_id : string) (now : Q),
    start_component_event node trace_id (Some ∅) now
      = start_component_event node trace_id None now
    /\ component_inputs (start_component_event node trace_id None now) = None
    /\ (forall inputs,
          inputs <> ∅ ->
          component_inputs
            (start_component_event node trace_id (Some inputs) now)
            = Some inputs).
Proof.
  intros node trace_id now. split; [reflexivity|]. split; [reflexivity|].
  intros inputs Hne. cbn. case_bool_decide; [contradiction | reflexivity].
Qed.

Lemma start_component_event_inputs_witness :
  component_inputs
    (start_component_event {| id := "n1" |} "t1" (Some {["q" := "hi"]}) 0)
    = Some {["q" := "hi"]}.
Proof.
  destruct (start_component_event_inputs {| id := "n1" |} "t1" 0)
    as (_ & _ & H).
  apply H. intros Hempty.
  apply (f_equal (fun m : gmap string string => m !! "q")) in Hempty.
  vm_compute in Hempty. discriminate Hempty.
Defined.

(** ** The worker runtime, further *)

(** X3.  For an execute request, the stream of [execute_event] is the
    starting [debug] event, the collaborator's events in the order it
    yielded them, and [done]; nothing is dropped or reordered.  When the
    collaborator raises, the events it yielded before are still
    forwarded, and exactly one event for the failure comes before [done]:
    for [execute_component] a component state change of the submitted
    node with status [error] and the exception's [repr] as error, for the
    other three an [error] event whose message is the [repr]. *)
Theorem execute_event_forwards_and_reports :
  forall (ext : Collaborators) (event : StudioClientEvent)
         (c : Collaboration),
    collaboration ext event = Some c ->
    (raised c = None ->
     execute_event ext event
       = [Debug {| debug_message := "server starting execution" |}]
         ++ produced c ++ [Done])
    /\ (forall repr_e now,
          raised c = Some (repr_e, now) ->
          exists failure,
            execute_event ext event
              = [Debug {| debug_message := "server starting execution" |}]
                ++ produced c ++ [failure; Done]
            /\ match event with
               | ExecuteComponent payload =>
                   exists execution_state,
                     failure
                       = ComponentStateChange
                           {| component_id :=
                                ExecuteComponentPayload.node_id payload;
                              execution_state := execution_state |}
                     /\ ExecutionState.status execution_state
                          = ExecutionStatus.error
                     /\ ExecutionState.error execution_state = Some repr_e
               | _ => failure = Error {| message := repr_e |}
               end).
Proof.
  intros ext event c Hc. split.
  - intros Hr.
    destruct event; cbn in Hc; try discriminate Hc; injection Hc as <-;
      unfold execute_event, forward; rewrite Hr, app_nil_r; reflexivity.
  - intros repr_e now Hr.
    destruct event; cbn in Hc; try discriminate Hc; injection Hc as <-;
      unfold execute_event, forward; rewrite Hr;
      eexists; (split; [rewrite <- app_assoc; reflexivity|]);
      first [reflexivity | eexists; split; [reflexivity|]; split; reflexivity].
Qed.

Lemma execute_event_forwards_and_reports_witness :
  execute_event quiet flow_t1
    = [Debug {| debug_message := "server starting execution" |}; Done]
  /\ exists failure,
       execute_event brittle component_t1
         = [Debug {| debug_message := "server starting execution" |};
            IsAliveResponse; failure; Done]
       /\ exists execution_state,
            failure
              = ComponentStateChange
                  {| component_id := "n1";
                     execution_state := execution_state |}
            /\ ExecutionState.status execution_state = ExecutionStatus.error
            /\ ExecutionState.error execution_state
                 = Some "ValueError('boom')".
Proof.
  split.
  - destruct (execute_event_forwards_and_reports quiet flow_t1 silent
                eq_refl) as [H _].
    apply H. reflexivity.
  - destruct (execute_event_forwards_and_reports brittle component_t1
                {| produced := [IsAliveResponse];
                   raised := Some ("ValueError('boom')", 5%Q) |} eq_refl)
      as [_ H].
    apply (H "ValueError('boom')" 5%Q). reflexivity.
Defined.

Lemma worker_loop_after_sentinel ext queue_in rest :
  sentinel_sent queue_in = true ->
  worker_loop ext (queue_in ++ rest) = worker_loop ext queue_in.
Proof.
  induction queue_in as [|[|[event|]] queue_in IH];
    cbn [sentinel_sent app worker_loop]; intros H.
  - discriminate H.
  - auto.
  - rewrite (IH H). reflexivity.
  - reflexivity.
Qed.

(** X4.  Once the sentinel has been delivered, nothing that follows it
    on the inbound queue is served: the worker's effects and final state
    are those of the queue up to the sentinel. *)
Theorem nothing_is_served_after_the_sentinel :
  forall (ext : Collaborators) (queue_in rest : list inbound),
    sentinel_sent queue_in = true ->
    event_worker ext (queue_in ++ rest) = event_worker ext queue_in
    /\ (event_worker ext (queue_in ++ rest)).2 = Exited.
Proof.
  intros ext queue_in rest H. unfold event_worker.
  rewrite (worker_loop_after_sentinel _ _ _ H).
  split; [reflexivity|].
  pose proof (worker_loop_state ext queue_in) as Hs. rewrite H in Hs.
  destruct (worker_loop ext queue_in). exact Hs.
Qed.

Lemma nothing_is_served_after_the_sentinel_witness :
  event_worker quiet ([Item (Some IsAlive); Item None] ++ [Item (Some flow_t1)])
    = event_worker quiet [Item (Some IsAlive); Item None]
  /\ (event_worker quiet
        ([Item (Some IsAlive); Item None] ++ [Item (Some flow_t1)])).2
       = Exited.
Proof.
  apply (nothing_is_served_after_the_sentinel quiet
           [Item (Some IsAlive); Item None] [Item (Some flow_t1)]).
  reflexivity.
Defined.

Lemma last_execute_event ext event : last (execute_event ext event) = Some Done.
Proof. unfold execute_event. rewrite app_assoc. apply last_snoc. Qed.

Lemma last_concat_execute_event ext events :
  events <> [] ->
  last (concat (map (execute_event ext) events)) = Some Done.
Proof.
  induction events as [|event events IH]; [contradiction|]. intros _.
  cbn [map concat]. rewrite last_app.
  destruct events as [|event' events].
  - cbn. apply last_execute_event.
  - rewrite IH by discriminate. reflexivity.
Qed.

(** X5.  Whenever a worker has served at least one assignment, the last
    event on its outbound queue is [done]; a worker that has served none
    has put nothing on it. *)
Theorem outbound_queue_ends_with_done :
  forall (ext : Collaborators) (queue_in : list inbound),
    (served queue_in <> [] ->
     last (outbound (event_worker ext queue_in).1) = Some Done)
    /\ (served queue_in = [] ->
        outbound (event_worker ext queue_in).1 = []).
Proof.
  intros ext queue_in.
  assert (H : outbound (event_worker ext queue_in).1
              = concat (map (execute_event ext) (served queue_in))).
  { unfold event_worker.
    pose proof (worker_loop_outbound ext queue_in) as H.
    destruct (worker_loop ext queue_in). exact H. }
  split; intros Hs; rewrite H.
  - apply last_concat_execute_event, Hs.
  - rewrite Hs. reflexivity.
Qed.

Lemma outbound_queue_ends_with_done_witness :
  last (outbound
          (event_worker quiet [TimedOut; Item (Some IsAlive); TimedOut]).1)
    = Some Done
  /\ outbound (event_worker quiet [TimedOut; Item None; Item (Some IsAlive)]).1
       = [].
Proof.
  split.
  - destruct (outbound_queue_ends_with_done quiet
                [TimedOut; Item (Some IsAlive); TimedOut]) as [H _].
    apply H. discriminate.
  - destruct (outbound_queue_ends_with_done quiet
                [TimedOut; Item None; Item (Some IsAlive)]) as [_ H].
    apply H. reflexivity.
Defined.

(** ** The supervisor's stream, further *)

Lemma poll_loop_result event out relayed exit :
  poll_loop (timeout_without_messages event) (start_time out) 0 (polls out)
    = (relayed, exit) ->
  forall running_processes,
    stream (trace (supervise event out running_processes))
      = stream relayed ++ verdict exit
    /\ state (supervise event out running_processes)
         = state_of exit (error_resumed out).
Proof.
  intros Hloop running_processes. split.
  - rewrite supervise_stream, Hloop. reflexivity.
  - rewrite (supervise_run _ _ _ _ _ Hloop). destruct exit; reflexivity.
Qed.

(** X6.  The supervisor relays the worker's messages in the order they
    are on the queue, without dropping, repeating or reordering any up to
    the point where it stops, and adds at most one event of its own, an
    [error], at the very end. *)
Theorem supervisor_relays_in_order :
  forall (event : StudioClientEvent) (out : Outside)
         (running_processes : gmap string RunningProcess),
    is_stop event = false ->
    exists relayed own,
      stream (trace (execute_event_on_a_subprocess event out
                       running_processes))
        = relayed ++ own
      /\ relayed `prefix_of` results (polls out)
      /\ (own = [] \/ exists payload, own = [Error payload]).
Proof.
  intros event out running_processes Hstop.
  rewrite not_stop_supervised by exact Hstop.
  destruct (poll_loop (timeout_without_messages event) (start_time out) 0
              (polls out)) as [relayed exit] eqn:Hloop.
  destruct (poll_loop_result _ _ _ _ Hloop running_processes) as [-> _].
  exists (stream relayed), (verdict exit). split; [reflexivity|]. split.
  - eapply poll_loop_prefix; eauto.
  - destruct exit; cbn; eauto.
Qed.

Lemma supervisor_relays_in_order_witness :
  exists relayed own,
    stream (trace (execute_event_on_a_subprocess flow_t1 stalled ∅))
      = relayed ++ own
    /\ relayed `prefix_of` results (polls stalled)
    /\ (own = [] \/ exists payload, own = [Error payload]).
Proof.
  apply (supervisor_relays_in_order flow_t1 stalled ∅). reflexivity.
Defined.

Lemma relay_actions script a :
  a ∈ relay script -> (exists event, a = Yield event) \/ a = Sleep 0.1.
Proof.
  induction script as [|[now result resumed | now alive | now repr_e] script IH];
    cbn [relay]; intros Hin.
  - apply elem_of_nil in Hin. contradiction.
  - apply elem_of_cons in Hin as [->|Hin]; eauto.
  - apply elem_of_cons in Hin as [->|Hin]; eauto.
  - auto.
Qed.

(** The run of a supervisor whose loop, after a stretch within the
    budget, leaves with [exit] having done [tail]. *)
Lemma supervise_after event out running_processes active rest last tail exit :
  polls out = active ++ rest ->
  in_budget (timeout_without_messages event) (start_time out) active
    = Some last ->
  (forall since,
      Qlt_bool since (timeout_without_messages event) = true ->
      poll_loop (timeout_without_messages event) last since rest
        = (tail, exit)) ->
  exit <> Starved ->
  supervise event out running_processes
    = {| trace := (relay active ++ tail)
                  ++ handler_effects exit (submitted out).1
                       (error_resumed out)
                  ++ (cleanup event (submitted out).1 (alive_at_exit out)
                        (others out
                           (register event (submitted out).1 (submitted out).2
                              running_processes))).1;
         table := (cleanup event (submitted out).1 (alive_at_exit out)
                     (others out
                        (register event (submitted out).1 (submitted out).2
                           running_processes))).2;
         state := state_of exit (error_resumed out) |}.
Proof.
  intros Hpolls Hbudget Hrest Hexit.
  rewrite (supervise_run _ _ _ _ _
             (poll_loop_after _ _ _ _ _ _ _ Hpolls Hbudget Hrest)).
  destruct exit; try reflexivity. contradiction.
Qed.

Lemma cleanup_lookup event process alive running_processes trace_id :
  get_trace_id event = Some trace_id ->
  trace_id <> "" ->
  (cleanup event process alive running_processes).2 !! trace_id = None.
Proof.
  intros Hid Hne. unfold cleanup. cbn [snd].
  rewrite Hid, (nonempty_truthy _ Hne). apply unregister_lookup.
Qed.

(** X7.  A worker found dead at an empty read is reported at once,
    whatever the clock reads: the stream ends with the error "Unexpected
    error: Exception('Runtime crashed')", and when the worker is still
    dead in [finally], the run sends no signal at all. *)
Theorem dead_worker_is_reported_at_once :
  forall (event : StudioClientEvent) (out : Outside)
         (running_processes : gmap string RunningProcess)
         (active rest : list poll) (now last : Q),
    is_stop event = false ->
    polls out = active ++ QueueEmpty now false :: rest ->
    in_budget (timeout_without_messages event) (start_time out) active
      = Some last ->
    alive_at_exit out = false ->
    let run := execute_event_on_a_subprocess event out running_processes in
    stream (trace run)
      = results active
        ++ [Error {| message :=
                       "Unexpected error: Exception('Runtime crashed')" |}]
    /\ state run <> Suspended
    /\ (forall pid sig, Kill pid sig ∉ trace run).
Proof.
  intros event out running_processes active rest now last
    Hstop Hpolls Hbudget Hdead run. subst run.
  rewrite not_stop_supervised by exact Hstop.
  rewrite (supervise_after event out running_processes active
             (QueueEmpty now false :: rest) last []
             (Thrown "Exception('Runtime crashed')") Hpolls Hbudget);
    [| intros since Hs; cbn [poll_loop];
       rewrite Hs, timeout_without_messages_long; reflexivity
     | discriminate].
  cbn [trace state handler_effects state_of]. unfold cleanup.
  rewrite Hdead. cbn [fst]. rewrite !app_nil_r. split; [|split].
  - rewrite stream_app, stream_relay. reflexivity.
  - destruct (error_resumed out); discriminate.
  - intros p s Hin. apply elem_of_app in Hin as [Hin|Hin].
    + apply relay_actions in Hin as [[e He]|He]; discriminate He.
    + apply list_elem_of_singleton in Hin. discriminate Hin.
Qed.

Lemma dead_worker_is_reported_at_once_witness :
  stream (trace (execute_event_on_a_subprocess flow_t1 crashed ∅))
    = results [QueueEmpty 60 true]
      ++ [Error {| message :=
                     "Unexpected error: Exception('Runtime crashed')" |}]
  /\ state (execute_event_on_a_subprocess flow_t1 crashed ∅) <> Suspended
  /\ (forall pid sig,
        Kill pid sig ∉ trace (execute_event_on_a_subprocess flow_t1 crashed ∅)).
Proof.
  apply (dead_worker_is_reported_at_once flow_t1 crashed ∅
           [QueueEmpty 60 true] [] 120.05%Q 0%Q); reflexivity.
Defined.

(** X8.  At the poll where the time since the last message is found at or
    beyond the budget, a message on the queue is still relayed.  If it is
    [done], the run ends normally, without a timeout error; any other
    message is followed at once by the "Execution timed out" error, even
    though it has just arrived. *)
Theorem message_at_the_expiring_poll :
  forall (event : StudioClientEvent) (out : Outside)
         (running_processes : gmap string RunningProcess)
         (active rest : list poll) (now resumed last : Q)
         (result : StudioServerEvent),
    is_stop event = false ->
    error_resumed out = true ->
    polls out = active ++ Got now result (Some resumed) :: rest ->
    in_budget (timeout_without_messages event) (start_time out) active
      = Some last ->
    (timeout_without_messages event <= now - last)%Q ->
    let run := execute_event_on_a_subprocess event out running_processes in
    stream (trace run)
      = results active
        ++ (if is_Done result then [Done]
            else [result; Error {| message := "Execution timed out" |}])
    /\ state run = Returned.
Proof.
  intros event out running_processes active rest now resumed last result
    Hstop Hres Hpolls Hbudget Hnow run. subst run.
  rewrite not_stop_supervised by exact Hstop.
  destruct (is_Done result) eqn:Hd.
  - rewrite (supervise_after event out running_processes active
               (Got now result (Some resumed) :: rest) last [Yield result]
               Finished Hpolls Hbudget);
      [| intros since Hs; cbn [poll_loop]; rewrite Hs, Hd; reflexivity
       | discriminate].
    cbn [trace state handler_effects state_of]. split; [|reflexivity].
    rewrite !stream_app, stream_relay, stream_cleanup, app_nil_r.
    destruct result; try discriminate Hd. reflexivity.
  - rewrite (supervise_after event out running_processes active
               (Got now result (Some resumed) :: rest) last [Yield result]
               Expired Hpolls Hbudget);
      [| intros since Hs; cbn [poll_loop]; rewrite Hs, Hd;
         rewrite (poll_loop_over _ _ _ _ (Qlt_bool_false _ _ Hnow));
         reflexivity
       | discriminate].
    cbn [trace state handler_effects state_of]. rewrite Hres.
    split; [|reflexivity].
    change (Yield ?e :: kill_process ?p) with ([Yield e] ++ kill_process p).
    rewrite !stream_app, stream_relay, stream_cleanup, stream_kill_process,
      !app_nil_r, <- app_assoc.
    reflexivity.
Qed.

Lemma message_at_the_expiring_poll_witness :
  (stream (trace (execute_event_on_a_subprocess flow_t1 (late Done) ∅))
     = results [QueueEmpty 60 true] ++ [Done]
   /\ state (execute_event_on_a_subprocess flow_t1 (late Done) ∅) = Returned)
  /\ (stream (trace (execute_event_on_a_subprocess flow_t1
                       (late IsAliveResponse) ∅))
        = results [QueueEmpty 60 true]
          ++ [IsAliveResponse; Error {| message := "Execution timed out" |}]
      /\ state (execute_event_on_a_subprocess flow_t1
                  (late IsAliveResponse) ∅) = Returned).
Proof.
  split.
  - apply (message_at_the_expiring_poll flow_t1 (late Done) ∅
             [QueueEmpty 60 true] [] 130%Q 130%Q 0%Q Done);
      try reflexivity.
    vm_compute. discriminate.
  - apply (message_at_the_expiring_poll flow_t1 (late IsAliveResponse) ∅
             [QueueEmpty 60 true] [] 130%Q 130%Q 0%Q IsAliveResponse);
      try reflexivity.
    vm_compute. discriminate.
Defined.

(** X9.  When the consumer closes the stream at a relayed message, the
    generator yields nothing more, but [finally] still runs: the worker,
    if alive, is sent the termination signal, and the record of the
    execution is removed. *)
Theorem closing_the_stream_ends_the_worker :
  forall (event : StudioClientEvent) (out : Outside)
         (running_processes : gmap string RunningProcess)
         (active rest : list poll) (now last : Q)
         (result : StudioServerEvent),
    is_stop event = false ->
    polls out = active ++ Got now result None :: rest ->
    in_budget (timeout_without_messages event) (start_time out) active
      = Some last ->
    let run := execute_event_on_a_subprocess event out running_processes in
    trace run
      = relay active ++ [Yield result]
        ++ (if alive_at_exit out then kill_process (submitted out).1 else [])
    /\ state run = Closing
    /\ (forall trace_id,
          get_trace_id event = Some trace_id -> trace_id <> "" ->
          table run !! trace_id = None).
Proof.
  intros event out running_processes active rest now last result
    Hstop Hpolls Hbudget run. subst run.
  rewrite not_stop_supervised by exact Hstop.
  rewrite (supervise_after event out running_processes active
             (Got now result None :: rest) last [Yield result]
             Closed Hpolls Hbudget);
    [| intros since Hs; cbn [poll_loop]; rewrite Hs; reflexivity
     | discriminate].
  cbn [trace state table handler_effects state_of]. split; [|split].
  - unfold cleanup. cbn [fst app]. rewrite <- app_assoc. reflexivity.
  - reflexivity.
  - intros trace_id Hid Hne. apply cleanup_lookup; assumption.
Qed.

Lemma closing_the_stream_ends_the_worker_witness :
  trace (execute_event_on_a_subprocess flow_t1 hung_up ∅)
    = [Yield IsAliveResponse; Kill 9 SIGUSR1]
  /\ state (execute_event_on_a_subprocess flow_t1 hung_up ∅) = Closing
  /\ (forall trace_id,
        get_trace_id flow_t1 = Some trace_id -> trace_id <> "" ->
        table (execute_event_on_a_subprocess flow_t1 hung_up ∅) !! trace_id
          = None).
Proof.
  apply (closing_the_stream_ends_the_worker flow_t1 hung_up ∅
           [] [] 1%Q 0%Q IsAliveResponse); reflexivity.
Defined.

(** X10.  Any other exception raised while polling ends the run with the
    error "Unexpected error: " followed by the exception's [repr]; the
    worker, if alive, is sent the termination signal and the record of
    the execution is removed. *)
Theorem polling_failure_is_reported :
  forall (event : StudioClientEvent) (out : Outside)
         (running_processes : gmap string RunningProcess)
         (active rest : list poll) (now last : Q) (repr_e : string),
    is_stop event = false ->
    polls out = active ++ Broken now repr_e :: rest ->
    in_budget (timeout_without_messages event) (start_time out) active
      = Some last ->
    let run := execute_event_on_a_subprocess event out running_processes in
    trace run
      = relay active
        ++ [Yield (Error {| message := "Unexpected error: " +:+ repr_e |})]
        ++ (if alive_at_exit out then kill_process (submitted out).1 else [])
    /\ state run <> Suspended
    /\ (forall trace_id,
          get_trace_id event = Some trace_id -> trace_id <> "" ->
          table run !! trace_id = None).
Proof.
  intros event out running_processes active rest now last repr_e
    Hstop Hpolls Hbudget run. subst run.
  rewrite not_stop_supervised by exact Hstop.
  rewrite (supervise_after event out running_processes active
             (Broken now repr_e :: rest) last [] (Thrown repr_e)
             Hpolls Hbudget);
    [| intros since Hs; cbn [poll_loop]; rewrite Hs; reflexivity
     | discriminate].
  cbn [trace state table handler_effects state_of]. split; [|split].
  - unfold cleanup. cbn [fst]. rewrite app_nil_r. reflexivity.
  - destruct (error_resumed out); discriminate.
  - intros trace_id Hid Hne. apply cleanup_lookup; assumption.
Qed.

Lemma polling_failure_is_reported_witness :
  trace (execute_event_on_a_subprocess flow_t1 broken_pipe ∅)
    = [Sleep 0.1;
       Yield (Error {| message := "Unexpected error: EOFError()" |});
       Kill 9 SIGUSR1]
  /\ state (execute_event_on_a_subprocess flow_t1 broken_pipe ∅) <> Suspended
  /\ (forall trace_id,
        get_trace_id flow_t1 = Some trace_id -> trace_id <> "" ->
        table (execute_event_on_a_subprocess flow_t1 broken_pipe ∅)
          !! trace_id = None).
Proof.
  apply (polling_failure_is_reported flow_t1 broken_pipe ∅
           [QueueEmpty 1 true] [] 2%Q 0%Q "EOFError()"); reflexivity.
Defined.

(** ** The table of running processes, further *)

Lemma register_other event process queue
    (running_processes : gmap string RunningProcess) trace_id :
  get_trace_id event <> Some trace_id ->
  register event process queue running_processes !! trace_id
    = running_processes !! trace_id.
Proof.
  intros Hne. unfold register.
  destruct (get_trace_id event) as [own|]; [|reflexivity].
  destruct (truthy (Some own) && negb (registered own running_processes));
    [|reflexivity].
  apply lookup_insert_ne. congruence.
Qed.

Lemma cleanup_other event process alive
    (running_processes : gmap string RunningProcess) trace_id :
  get_trace_id event <> Some trace_id ->
  (cleanup event process alive running_processes).2 !! trace_id
    = running_processes !! trace_id.
Proof.
  intros Hne. unfold cleanup. cbn [snd].
  destruct (get_trace_id event) as [own|]; [|reflexivity].
  destruct (truthy (Some own) && registered own running_processes);
    [|reflexivity].
  apply lookup_delete_ne. congruence.
Qed.

Lemma supervise_table_cases event out running_processes :
  let registered_table :=
    register event (submitted out).1 (submitted out).2 running_processes in
  table (supervise event out running_processes)
    = (if suspended (state (supervise event out running_processes))
       then registered_table
       else (cleanup event (submitted out).1 (alive_at_exit out)
               (others out registered_table)).2).
Proof.
  cbv zeta.
  destruct (poll_loop (timeout_without_messages event) (start_time out) 0
              (polls out)) as [relayed exit] eqn:Hloop.
  rewrite (supervise_run _ _ _ _ _ Hloop).
  destruct exit; try destruct (error_resumed out); reflexivity.
Qed.

Lemma stop_branch_other trace_id out running_processes after other :
  undisturbed out ->
  other <> trace_id ->
  table (stop_branch trace_id out running_processes after) !! other
    = running_processes !! other.
Proof.
  intros Hq Hne. unfold stop_branch, stop_process.
  destruct (registered trace_id running_processes) eqn:Hr; [|reflexivity].
  destruct (running_processes !! trace_id); [|reflexivity].
  cbn [table]. rewrite unregister_delete, Hq.
  apply lookup_delete_ne. congruence.
Qed.

(** X11.  A request changes no record but that of its own id: when no
    other coroutine touches the table meanwhile, every other id has,
    after the request (and while it is still polling), the record it had
    before. *)
Theorem other_records_are_untouched :
  forall (event : StudioClientEvent) (out : Outside)
         (running_processes : gmap string RunningProcess) (other : string),
    undisturbed out ->
    get_trace_id event <> Some other ->
    table (execute_event_on_a_subprocess event out running_processes) !! other
      = running_processes !! other.
Proof.
  intros event out running_processes other Hq Hne.
  destruct (is_stop event) eqn:Hstop.
  - destruct event; try discriminate Hstop; cbn in Hne;
      cbn [execute_event_on_a_subprocess]; cbv zeta;
      apply stop_branch_other; congruence.
  - rewrite not_stop_supervised by exact Hstop.
    rewrite supervise_table_cases.
    destruct (suspended (state (supervise event out running_processes))).
    + apply register_other, Hne.
    + rewrite cleanup_other by exact Hne. rewrite Hq.
      apply register_other, Hne.
Qed.

Lemma other_records_are_untouched_witness :
  table (execute_event_on_a_subprocess flow_t1 timed_out t2_running) !! "t2"
    = t2_running !! "t2".
Proof.
  apply (other_records_are_untouched flow_t1 timed_out t2_running "t2").
  - intros m. reflexivity.
  - discriminate.
Defined.

(** X12.  Registration and [finally] undo each other: a run whose id had
    no record when it started, and which has left the polling loop,
    leaves the table exactly as it found it (when no other coroutine
    touched it meanwhile). *)
Theorem finished_run_restores_the_table :
  forall (event : StudioClientEvent) (out : Outside)
         (running_processes : gmap string RunningProcess),
    is_stop event = false ->
    undisturbed out ->
    (forall trace_id,
        get_trace_id event = Some trace_id ->
        running_processes !! trace_id = None) ->
    state (execute_event_on_a_subprocess event out running_processes)
      <> Suspended ->
    table (execute_event_on_a_subprocess event out running_processes)
      = running_processes.
Proof.
  intros event out running_processes Hstop Hq Hfree.
  rewrite not_stop_supervised by exact Hstop. intros Hstate.
  rewrite supervise_table_cases.
  destruct (state (supervise event out running_processes)) eqn:Hst;
    try contradiction; cbn [suspended];
    rewrite Hq; unfold cleanup, register; cbn [snd];
    (destruct (get_trace_id event) as [trace_id|]; [|reflexivity]);
    specialize (Hfree trace_id eq_refl);
    rewrite (registered_false _ _ Hfree); cbn [negb]; rewrite andb_true_r;
    (destruct (truthy (Some trace_id)); cbn [andb]; [|reflexivity]);
    rewrite (registered_true _ _ _ (lookup_insert_eq _ _ _));
    rewrite delete_insert_eq; apply delete_id, Hfree.
Qed.

Lemma finished_run_restores_the_table_witness :
  table (execute_event_on_a_subprocess flow_t1 timed_out t2_running)
    = t2_running.
Proof.
  apply (finished_run_restores_the_table flow_t1 timed_out t2_running).
  - reflexivity.
  - intros m. reflexivity.
  - intros trace_id [= <-]. reflexivity.
  - vm_compute. discriminate.
Defined.

(** X13.  A second execution submitted under an id that already has a
    record does not replace that record; yet when it leaves the polling
    loop it deletes the record, although the record is the first
    execution's. *)
Theorem second_run_removes_the_first_record :
  forall (event : StudioClientEvent) (out : Outside)
         (running_processes : gmap string RunningProcess)
         (trace_id : string) (record : RunningProcess),
    is_stop event = false ->
    undisturbed out ->
    get_trace_id event = Some trace_id ->
    trace_id <> "" ->
    running_processes !! trace_id = Some record ->
    state (execute_event_on_a_subprocess event out running_processes)
      <> Suspended ->
    register event (submitted out).1 (submitted out).2 running_processes
      = running_processes
    /\ table (execute_event_on_a_subprocess event out running_processes)
         = delete trace_id running_processes.
Proof.
  intros event out running_processes trace_id record
    Hstop Hq Hid Hne Hrec.
  rewrite not_stop_supervised by exact Hstop. intros Hstate.
  assert (Hreg : register event (submitted out).1 (submitted out).2
                   running_processes = running_processes).
  { unfold register. rewrite Hid, (registered_true _ _ _ Hrec).
    rewrite andb_false_r. reflexivity. }
  split; [exact Hreg|].
  rewrite supervise_table_cases.
  destruct (state (supervise event out running_processes)) eqn:Hst;
    try contradiction; cbn [suspended];
    rewrite Hreg, Hq; unfold cleanup; cbn [snd];
    rewrite Hid, (nonempty_truthy _ Hne), (registered_true _ _ _ Hrec);
    reflexivity.
Qed.

Lemma second_run_removes_the_first_record_witness :
  register flow_t1 (submitted timed_out).1 (submitted timed_out).2 t1_running
    = t1_running
  /\ table (execute_event_on_a_subprocess flow_t1 timed_out t1_running)
       = delete "t1" t1_running.
Proof.
  apply (second_run_removes_the_first_record flow_t1 timed_out t1_running
           "t1" worker7); try reflexivity.
  - intros m. reflexivity.
  - discriminate.
  - vm_compute. discriminate.
Defined.

(** ** Stopping an execution, further *)



(** X15.  Stopping is idempotent: a second stop request for the same id,
    made on the table the first one left, does nothing at all. *)
Theorem second_stop_is_a_no_op :
  forall (event : StudioClientEvent) (out out' : Outside)
         (running_processes : gmap string RunningProcess)
         (trace_id : string),
    stop_id event = Some trace_id ->
    let stopped :=
      table (execute_event_on_a_subprocess event out running_processes) in
    execute_event_on_a_subprocess event out' stopped
      = {| trace := []; table := stopped; state := Returned |}.
Proof.
  intros event out out' running_processes trace_id Hid stopped.
  subst stopped. unfold stop_id in Hid.
  destruct event; cbn in Hid; try discriminate Hid; injection Hid as Hid;
    cbn [execute_event_on_a_subprocess]; cbv zeta;
    match goal with
    | |- stop_branch ?i out' (table (stop_branch ?i out ?m ?a)) ?b = _ =>
        pose proof (stop_branch_table i out m a) as Hgone;
        unfold stop_branch at 1;
        rewrite (registered_false _ _ Hgone)
    end; reflexivity.
Qed.

Lemma second_stop_is_a_no_op_witness :
  let stopped :=
    table (execute_event_on_a_subprocess stop_t1 calm t1_running) in
  execute_event_on_a_subprocess stop_t1 calm stopped
    = {| trace := []; table := stopped; state := Returned |}.
Proof.
  apply (second_stop_is_a_no_op stop_t1 calm calm t1_running "t1").
  reflexivity.
Defined.

Lemma supervise_actions event out running_processes a :
  a ∈ trace (supervise event out running_processes) ->
  (exists e, a = Yield e) \/ a = Sleep 0.1
  \/ a ∈ kill_process (submitted out).1.
Proof.
  destruct (poll_loop (timeout_without_messages event) (start_time out) 0
              (polls out)) as [relayed exit] eqn:Hloop.
  rewrite (supervise_run _ _ _ _ _ Hloop).
  assert (Hrelayed : a ∈ relayed ->
            (exists e, a = Yield e) \/ a = Sleep 0.1
            \/ a ∈ kill_process (submitted out).1).
  { intros Hin.
    destruct (poll_loop_actions _ _ _ _ _ _ _ Hloop Hin) as [H|H]; auto. }
  assert (Hrest : a ∈ handler_effects exit (submitted out).1 (error_resumed out)
                      ++ (cleanup event (submitted out).1 (alive_at_exit out)
                            (others out
                               (register event (submitted out).1
                                  (submitted out).2 running_processes))).1 ->
            (exists e, a = Yield e) \/ a = Sleep 0.1
            \/ a ∈ kill_process (submitted out).1).
  { intros Hin. apply elem_of_app in Hin as [Hin|Hin].
    - destruct exit; cbn [handler_effects] in Hin;
        try (apply elem_of_nil in Hin; contradiction).
      + apply elem_of_cons in Hin as [->|Hin]; [eauto|].
        destruct (error_resumed out); [auto|].
        apply elem_of_nil in Hin. contradiction.
      + apply list_elem_of_singleton in Hin as ->. eauto.
    - unfold cleanup in Hin. cbn [fst] in Hin.
      destruct (alive_at_exit out); [auto|].
      apply elem_of_nil in Hin. contradiction. }
  destruct exit; cbn [trace]; intros Hin;
    try (apply elem_of_app in Hin as [Hin|Hin]; auto).
  auto.
Qed.

Lemma kill_process_signal process a :
  a ∈ kill_process process ->
  exists pid', pid process = Some pid' /\ a = Kill pid' SIGUSR1.
Proof.
  unfold kill_process. destruct (pid process) as [p|]; intros Hin.
  - apply list_elem_of_singleton in Hin as ->. eauto.
  - apply elem_of_nil in Hin. contradiction.
Qed.

Lemma stop_branch_actions trace_id out running_processes after a :
  a ∈ trace (stop_branch trace_id out running_processes after) ->
  exists record,
    running_processes !! trace_id = Some record
    /\ (a = Put (queue record) Done \/ a = Sleep 0.2
        \/ (exists record',
              others out running_processes !! trace_id = Some record'
              /\ a ∈ kill_process (process record'))
        \/ a ∈ after).
Proof.
  destruct (running_processes !! trace_id) as [record|] eqn:Hrec.
  - rewrite (stop_branch_registered _ _ _ _ _ Hrec). cbn [trace].
    intros Hin. exists record. split; [reflexivity|].
    apply elem_of_app in Hin as [Hin|Hin]; [|auto].
    apply elem_of_app in Hin as [Hin|Hin].
    + apply elem_of_cons in Hin as [->|Hin]; [auto|].
      apply list_elem_of_singleton in Hin as ->. auto.
    + destruct (others out running_processes !! trace_id) as [record'|];
        [eauto 6|].
      apply elem_of_nil in Hin. contradiction.
  - unfold stop_branch. rewrite (registered_false _ _ Hrec). cbn [trace].
    intros Hin. apply elem_of_nil in Hin. contradiction.
Qed.

(** What follows [stop_process] in the stop branch of an event. *)
Lemma stop_request_branch event :
  is_stop event = true ->
  exists trace_id,
    stop_id event = Some trace_id
    /\ forall out running_processes,
         exists after,
           execute_event_on_a_subprocess event out running_processes
             = stop_branch trace_id out running_processes after
           /\ forall a, a ∈ after ->
                (exists e, a = Yield e /\ undecided e = true /\ e <> Done)
                \/ exists payload,
                     event = StopEvaluationExecution payload
                     /\ a = PostResults
                              (api_key (StopEvaluationExecutionPayload.workflow
                                          payload))
                              (workflow_id
                                 (StopEvaluationExecutionPayload.workflow
                                    payload))
                              (StopEvaluationExecutionPayload.run_id payload)
                              (now_ms (readings out).1.1)
                              (now_ms (readings out).1.2).
Proof.
  destruct event; intros H; try discriminate H;
    eexists; (split; [reflexivity|]); intros out running_processes;
    eexists; (split; [reflexivity|]); intros a Hin.
  - apply list_elem_of_singleton in Hin as ->. left. eexists.
    split; [reflexivity|].
    destruct (StopExecutionPayload.node_id payload) as [node_id|];
      [destruct (truthy (Some node_id))|]; split; first [reflexivity | discriminate].
  - apply elem_of_cons in Hin as [->|Hin]; [right; eauto|].
    apply list_elem_of_singleton in Hin as ->. left. eexists.
    split; [reflexivity|]. split; [reflexivity | discriminate].
  - apply list_elem_of_singleton in Hin as ->. left. eexists.
    split; [reflexivity|]. split; [reflexivity | discriminate].
Qed.

(** X17.  The only signal a request ever sends is [SIGUSR1], and only to
    one process: a request that executes something signals the worker the
    pool gave it, a stop request the worker recorded under the id it
    names at the end of the grace interval.  A process without a pid is
    never signalled. *)
Theorem signals_reach_only_the_own_worker :
  forall (event : StudioClientEvent) (out : Outside)
         (running_processes : gmap string RunningProcess)
         (pid' : nat) (sig : Signal),
    Kill pid' sig
      ∈ trace (execute_event_on_a_subprocess event out running_processes) ->
    sig = SIGUSR1
    /\ if is_stop event
       then exists trace_id record',
              stop_id event = Some trace_id
              /\ others out running_processes !! trace_id = Some record'
              /\ pid (process record') = Some pid'
       else pid (submitted out).1 = Some pid'.
Proof.
  intros event out running_processes pid' sig Hin.
  destruct (is_stop event) eqn:Hstop.
  - destruct (stop_request_branch event Hstop) as (trace_id & Hid & Hbranch).
    destruct (Hbranch out running_processes) as (after & Hrun & Hafter).
    rewrite Hrun in Hin.
    apply stop_branch_actions in Hin
      as (record & Hrec & [H|[H|[(record' & Hstill & H)|H]]]);
      try discriminate H.
    + apply kill_process_signal in H as (p & Hp & [= -> ->]). eauto 6.
    + apply Hafter in H as [(e & H & _)|(payload & _ & H)]; discriminate H.
  - rewrite not_stop_supervised in Hin by exact Hstop.
    apply supervise_actions in Hin as [[e H]|[H|H]]; try discriminate H.
    apply kill_process_signal in H as (p & Hp & [= -> ->]). auto.
Qed.

Lemma signals_reach_only_the_own_worker_witness :
  SIGUSR1 = SIGUSR1
  /\ exists trace_id record',
       stop_id stop_t1 = Some trace_id
       /\ others calm t1_running !! trace_id = Some record'
       /\ pid (process record') = Some 7%nat.
Proof.
  apply (signals_reach_only_the_own_worker stop_t1 calm t1_running 7%nat
           SIGUSR1).
  vm_compute. apply list_elem_of_further, list_elem_of_further,
    list_elem_of_here.
Defined.

(** X18.  The supervisor writes to a queue only in a stop branch, and
    then only the [done] sentinel, on the queue of the record it found
    under the stopped id; a request that executes something never writes
    to any queue. *)
Theorem only_a_stop_writes_to_a_queue :
  forall (event : StudioClientEvent) (out : Outside)
         (running_processes : gmap string RunningProcess)
         (queue' : Queue) (message : StudioServerEvent),
    Put queue' message
      ∈ trace (execute_event_on_a_subprocess event out running_processes) ->
    message = Done
    /\ exists trace_id record,
         stop_id event = Some trace_id
         /\ running_processes !! trace_id = Some record
         /\ queue record = queue'.
Proof.
  intros event out running_processes queue' message Hin.
  destruct (is_stop event) eqn:Hstop.
  - destruct (stop_request_branch event Hstop) as (trace_id & Hid & Hbranch).
    destruct (Hbranch out running_processes) as (after & Hrun & Hafter).
    rewrite Hrun in Hin.
    apply stop_branch_actions in Hin
      as (record & Hrec & [H|[H|[(record' & Hstill & H)|H]]]);
      try discriminate H.
    + injection H as -> ->. eauto 6.
    + apply kill_process_signal in H as (p & Hp & H). discriminate H.
    + apply Hafter in H as [(e & H & _)|(payload & _ & H)]; discriminate H.
  - rewrite not_stop_supervised in Hin by exact Hstop.
    apply supervise_actions in Hin as [[e H]|[H|H]]; try discriminate H.
    apply kill_process_signal in H as (p & Hp & H). discriminate H.
Qed.

Lemma only_a_stop_writes_to_a_queue_witness :
  Done = Done
  /\ exists trace_id record,
       stop_id stop_t1 = Some trace_id
       /\ t1_running !! trace_id = Some record
       /\ queue record = 1%nat.
Proof.
  apply (only_a_stop_writes_to_a_queue stop_t1 calm t1_running 1%nat Done).
  vm_compute. apply list_elem_of_here.
Defined.

Lemma elem_of_stream trace' event :
  event ∈ stream trace' <-> Yield event ∈ trace'.
Proof.
  unfold stream. rewrite list_elem_of_omap. split.
  - intros (a & Hin & Ha). destruct a; try discriminate Ha.
    injection Ha as ->. exact Hin.
  - intros Hin. exists (Yield event). auto.
Qed.

Lemma forallb_elem_of {A} (f : A -> bool) (l : list A) :
  (forall x, x ∈ l -> f x = true) -> forallb f l = true.
Proof.
  induction l as [|x l IH]; [reflexivity|]. intros H. cbn [forallb].
  rewrite (H x (list_elem_of_here _ _)), IH; [reflexivity|].
  intros y Hy. apply H, list_elem_of_further, Hy.
Qed.

Lemma forallb_prefix {A} (f : A -> bool) (l1 l2 : list A) :
  l1 `prefix_of` l2 -> forallb f l2 = true -> forallb f l1 = true.
Proof.
  intros [k ->]. rewrite forallb_app. intros H.
  apply andb_prop in H as [H _]. exact H.
Qed.

(** X19.  The evaluation service is told of a stop only by a
    [stop_evaluation_execution] request whose run id has a record; its
    report carries the workflow's API key and id, the run id, and the
    two clock readings in milliseconds.  Such a request ends with the
    report followed by the stopped-evaluation event; no other request,
    and no stop of an unknown run, reports anything. *)
Theorem only_a_stopped_evaluation_is_reported :
  forall (event : StudioClientEvent) (out : Outside)
         (running_processes : gmap string RunningProcess),
    let run := execute_event_on_a_subprocess event out running_processes in
    (forall key slug run_id finished stopped,
        PostResults key slug run_id finished stopped ∈ trace run ->
        exists payload,
          event = StopEvaluationExecution payload
          /\ is_Some (running_processes !! run_id)
          /\ run_id = StopEvaluationExecutionPayload.run_id payload
          /\ key = api_key (StopEvaluationExecutionPayload.workflow payload)
          /\ slug
               = workflow_id (StopEvaluationExecutionPayload.workflow payload)
          /\ finished = now_ms (readings out).1.1
          /\ stopped = now_ms (readings out).1.2)
    /\ (forall payload,
          event = StopEvaluationExecution payload ->
          is_Some (running_processes
                     !! StopEvaluationExecutionPayload.run_id payload) ->
          exists before,
            trace run
              = before
                ++ [PostResults
                      (api_key (StopEvaluationExecutionPayload.workflow payload))
                      (workflow_id
                         (StopEvaluationExecutionPayload.workflow payload))
                      (StopEvaluationExecutionPayload.run_id payload)
                      (now_ms (readings out).1.1)
                      (now_ms (readings out).1.2);
                    Yield (error_evaluation_event
                             (StopEvaluationExecutionPayload.run_id payload)
                             "Evaluation Stopped"
                             (now_ms (readings out).2))]).
Proof.
  intros event out running_processes run. subst run. split.
  - intros key slug run_id finished stopped Hin.
    destruct (is_stop event) eqn:Hstop.
    + destruct (stop_request_branch event Hstop) as (trace_id & Hid & Hbranch).
      destruct (Hbranch out running_processes) as (after & Hrun & Hafter).
      rewrite Hrun in Hin.
      apply stop_branch_actions in Hin
        as (record & Hrec & [H|[H|[(record' & Hstill & H)|H]]]);
        try discriminate H.
      * apply kill_process_signal in H as (p & Hp & H). discriminate H.
      * apply Hafter in H as [(e & H & _)|(payload & -> & H)];
          [discriminate H|].
        injection H as -> -> -> -> ->.
        cbn in Hid. injection Hid as <-.
        exists payload. rewrite Hrec. repeat split; eauto.
    + rewrite not_stop_supervised in Hin by exact Hstop.
      apply supervise_actions in Hin as [[e H]|[H|H]]; try discriminate H.
      apply kill_process_signal in H as (p & Hp & H). discriminate H.
  - intros payload -> [record Hrec].
    cbn [execute_event_on_a_subprocess]. cbv zeta.
    rewrite (stop_branch_registered _ _ _ _ _ Hrec). cbn [trace].
    eexists. reflexivity.
Qed.

Lemma only_a_stopped_evaluation_is_reported_witness :
  (exists payload,
     stop_evaluation_t1 = StopEvaluationExecution payload
     /\ is_Some (t1_running !! "t1")
     /\ "t1" = StopEvaluationExecutionPayload.run_id payload
     /\ "k" = api_key (StopEvaluationExecutionPayload.workflow payload)
     /\ "w" = workflow_id (StopEvaluationExecutionPayload.workflow payload)
     /\ 1000%Z = now_ms (readings calm).1.1
     /\ 1000%Z = now_ms (readings calm).1.2)
  /\ exists before,
       trace (execute_event_on_a_subprocess stop_evaluation_t1 calm t1_running)
         = before
           ++ [PostResults "k" "w" "t1" 1000 1000;
               Yield (error_evaluation_event "t1" "Evaluation Stopped" 1000)].
Proof.
  destruct (only_a_stopped_evaluation_is_reported stop_evaluation_t1 calm
              t1_running) as [Honly Hreport].
  split.
  - apply (Honly "k" "w" "t1" 1000%Z 1000%Z).
    vm_compute. do 3 apply list_elem_of_further. apply list_elem_of_here.
  - apply (Hreport (StopEvaluationExecutionPayload.mk
                      {| api_key := "k"; workflow_id := "w" |} "t1"));
      [reflexivity | eexists; reflexivity].
Defined.

(** ** The synchronous endpoint, further *)

(** X20.  Through [execute_sync] a stop request of any kind is always
    answered with the HTTP error "Execution completed without success or
    error status", whether the id was running or not: none of the events
    of a stop branch is an execution state change. *)
Theorem execute_sync_answers_a_stop_with_the_generic_error :
  forall (event : StudioClientEvent) (out : Outside)
         (running_processes : gmap string RunningProcess),
    is_stop event = true ->
    execute_sync event out running_processes
      = Some (HTTPException 500
                (Some "Execution completed without success or error status")).
Proof.
  intros event out running_processes Hstop. unfold execute_sync.
  destruct (stop_request_branch event Hstop) as (trace_id & Hid & Hbranch).
  destruct (Hbranch out running_processes) as (after & -> & Hafter).
  rewrite stop_branch_returns, monitor_undecided; [reflexivity|].
  rewrite stop_branch_stream.
  destruct (registered trace_id running_processes); [|reflexivity].
  apply forallb_elem_of. intros e He. apply elem_of_stream in He.
  apply Hafter in He as [(e' & [= <-] & Hu & _)|(payload & _ & H)];
    [exact Hu | discriminate H].
Qed.

Lemma execute_sync_answers_a_stop_with_the_generic_error_witness :
  execute_sync stop_evaluation_t1 calm t1_running
    = Some (HTTPException 500
              (Some "Execution completed without success or error status")).
Proof.
  apply (execute_sync_answers_a_stop_with_the_generic_error
           stop_evaluation_t1 calm t1_running).
  reflexivity.
Defined.

Lemma verdict_undecided exit : forallb undecided (verdict exit) = true.
Proof. destruct exit; reflexivity. Qed.

(** X21.  [execute_sync] never passes on an error of another kind: when
    none of the messages on the worker's queue is an execution state
    change with status [success] or [error], a run that returns is
    answered with the generic HTTP error, also when the stream carried a
    component error, an [error] event, or the supervisor's own timeout or
    crash error. *)
Theorem execute_sync_hides_other_errors :
  forall (event : StudioClientEvent) (out : Outside)
         (running_processes : gmap string RunningProcess),
    is_stop event = false ->
    forallb undecided (results (polls out)) = true ->
    state (execute_event_on_a_subprocess event out running_processes)
      = Returned ->
    execute_sync event out running_processes
      = Some (HTTPException 500
                (Some "Execution completed without success or error status")).
Proof.
  intros event out running_processes Hstop Hresults Hstate.
  unfold execute_sync. rewrite Hstate.
  rewrite not_stop_supervised by exact Hstop.
  destruct (poll_loop (timeout_without_messages event) (start_time out) 0
              (polls out)) as [relayed exit] eqn:Hloop.
  destruct (poll_loop_result _ _ _ _ Hloop running_processes) as [-> _].
  rewrite monitor_undecided; [reflexivity|].
  rewrite forallb_app, verdict_undecided, andb_true_r.
  eapply forallb_prefix; [|exact Hresults].
  eapply poll_loop_prefix; eauto.
Qed.

Lemma execute_sync_hides_other_errors_witness :
  stream (trace (execute_event_on_a_subprocess flow_t1 failed_quietly ∅))
    = [component_error_event "t1" "n1" "boom" 1;
       Error {| message := "Execution timed out" |}]
  /\ execute_sync flow_t1 failed_quietly ∅
       = Some (HTTPException 500
                 (Some "Execution completed without success or error status")).
Proof.
  split; [reflexivity|].
  apply (execute_sync_hides_other_errors flow_t1 failed_quietly ∅);
    reflexivity.
Defined.

(** ** The table of running processes: the empty id *)

(** X22.  An execution whose id is the empty string is never recorded:
    at every moment of its run, also while it is polling, the table is as
    it was (when no other coroutine touches it), so no stop request can
    find it. *)
Theorem empty_id_is_never_recorded :
  forall (event : StudioClientEvent) (out : Outside)
         (running_processes : gmap string RunningProcess),
    is_stop event = false ->
    get_trace_id event = Some "" ->
    undisturbed out ->
    table (execute_event_on_a_subprocess event out running_processes)
      = running_processes.
Proof.
  intros event out running_processes Hstop Hid Hq.
  rewrite not_stop_supervised by exact Hstop.
  rewrite supervise_table_cases.
  assert (Hreg : register event (submitted out).1 (submitted out).2
                   running_processes = running_processes)
    by (unfold register; rewrite Hid; reflexivity).
  rewrite Hreg, Hq. unfold cleanup. cbn [snd]. rewrite Hid. cbn.
  destruct (suspended _); reflexivity.
Qed.

Lemma empty_id_is_never_recorded_witness :
  table (execute_event_on_a_subprocess flow_unnamed calm t2_running)
    = t2_running.
Proof.
  apply (empty_id_is_never_recorded flow_unnamed calm t2_running).
  - reflexivity.
  - reflexivity.
  - intros m. reflexivity.
Defined.

(** ** The fields of a component *)

Section FieldProperties.

Context {FieldType Value : Type}.
Variable truth : Value -> bool.
Variable autoparse_field_value :
  Field.t FieldType Value -> option Value -> string + option Value.

Lemma parse_fields_snoc fields field autoparse :
  parse_fields truth autoparse_field_value (fields ++ [field]) autoparse
    = match parse_fields truth autoparse_field_value fields autoparse with
      | inl repr_e => inl repr_e
      | inr parsed =>
          if has_value truth field then
            if autoparse then
              match autoparse_field_value field (Field.value field) with
              | inl repr_e => inl repr_e
              | inr v => inr (<[Field.identifier field := v]> parsed)
              end
            else inr (<[Field.identifier field := Field.value field]> parsed)
          else inr parsed
      end.
Proof. unfold parse_fields. rewrite foldl_snoc. reflexivity. Qed.

Lemma autoparse_fields_snoc fields field values :
  autoparse_fields autoparse_field_value (fields ++ [field]) values
    = match autoparse_fields autoparse_field_value fields values with
      | inl repr_e => inl repr_e
      | inr parsed_values =>
          match values !! Field.identifier field with
          | None => inr parsed_values
          | Some v =>
              match autoparse_field_value field v with
              | inl repr_e => inl repr_e
              | inr v' =>
                  inr (<[Field.identifier field := v']> parsed_values)
              end
          end
      end.
Proof. unfold autoparse_fields. rewrite foldl_snoc. reflexivity. Qed.

Lemma parse_fields_raw_lookup fields :
  exists parsed,
    parse_fields truth autoparse_field_value fields false = inr parsed
    /\ forall k,
         parsed !! k
           = Field.value
               <$> last (filter
                           (fun field =>
                              Field.identifier field = k
                              /\ has_value truth field = true)
                           fields).
Proof.
  induction fields as [|field fields IH] using rev_ind.
  - exists ∅. split; [reflexivity|]. intros k. rewrite lookup_empty.
    reflexivity.
  - destruct IH as (parsed & Hparsed & Hlookup).
    rewrite parse_fields_snoc, Hparsed.
    destruct (has_value truth field) eqn:Hv.
    + eexists. split; [reflexivity|]. intros k. rewrite filter_app.
      destruct (decide (Field.identifier field = k)) as [<-|Hne].
      * rewrite filter_cons_True by auto. rewrite filter_nil, last_snoc.
        cbn. apply lookup_insert_eq.
      * rewrite filter_cons_False by (intros [H _]; contradiction).
        rewrite filter_nil, app_nil_r, lookup_insert_ne by exact Hne.
        apply Hlookup.
    + exists parsed. split; [reflexivity|]. intros k. rewrite filter_app.
      rewrite filter_cons_False by (intros [_ H]; congruence).
      rewrite filter_nil, app_nil_r. apply Hlookup.
Qed.

End FieldProperties.

(** X23.  Without autoparsing, [parse_fields] never fails, and the
    dictionary it builds holds, under each identifier, the value of the
    last field with that identifier whose value is truthy.  A field whose
    value is [None] or falsy is skipped, so it neither appears nor
    overrides an earlier field. *)
Theorem parse_fields_keeps_the_last_truthy_value :
  forall (FieldType Value : Type) (truth : Value -> bool)
         (autoparse_field_value :
            Field.t FieldType Value -> option Value -> string + option Value)
         (fields : list (Field.t FieldType Value)),
    exists parsed,
      parse_fields truth autoparse_field_value fields false = inr parsed
      /\ (forall k,
            parsed !! k
              = Field.value
                  <$> last (filter
                              (fun field =>
                                 Field.identifier field = k
                                 /\ has_value truth field = true)
                              fields))
      /\ (forall k v,
            parsed !! k = Some v -> exists x, v = Some x /\ truth x = true).
Proof.
  intros FieldType Value truth autoparse_field_value fields.
  destruct (parse_fields_raw_lookup truth autoparse_field_value fields)
    as (parsed & Hparsed & Hlookup).
  exists parsed. split; [exact Hparsed|]. split; [exact Hlookup|].
  intros k v Hk. rewrite Hlookup in Hk.
  destruct (last _) as [field|] eqn:Hlast; [|discriminate Hk].
  injection Hk as <-.
  apply last_Some in Hlast as [l' Hl'].
  assert (Hin : field ∈ filter
                  (fun field => Field.identifier field = k
                                /\ has_value truth field = true) fields)
    by (rewrite Hl'; apply elem_of_app; right; apply list_elem_of_here).
  apply list_elem_of_filter in Hin as [[_ Hv] _].
  unfold has_value in Hv. destruct (Field.value field) as [x|]; [eauto|].
  discriminate Hv.
Qed.

(** The dictionary of the sample fields: the later ["a"] wins, the empty
    ["b"] and the missing ["c"] are left out. *)
Example parse_fields_sample :
  parse_fields nonempty picky sample_fields false
    = inr {["a" := Some "2"]}.
Proof. reflexivity. Qed.

(** X24.  [autoparse_fields] keeps exactly the given values that some
    field declares: a value without a field is dropped, a field without a
    value is skipped, and each entry is the parse of the given value by a
    field of that identifier.  It fails only with an exception that
    [autoparse_field_value] raised on a declared, given value. *)
Theorem autoparse_fields_keeps_declared_values :
  forall (FieldType Value : Type)
         (autoparse_field_value :
            Field.t FieldType Value -> option Value -> string + option Value)
         (fields : list (Field.t FieldType Value))
         (values : gmap string (option Value)),
    match autoparse_fields autoparse_field_value fields values with
    | inr parsed_values =>
        (forall k,
            is_Some (parsed_values !! k)
            <-> is_Some (values !! k)
                /\ exists field, field ∈ fields /\ Field.identifier field = k)
        /\ (forall k v',
              parsed_values !! k = Some v' ->
              exists field v,
                field ∈ fields /\ Field.identifier field = k
                /\ values !! k = Some v
                /\ autoparse_field_value field v = inr v')
    | inl repr_e =>
        exists field v,
          field ∈ fields
          /\ values !! Field.identifier field = Some v
          /\ autoparse_field_value field v = inl repr_e
    end.
Proof.
  intros FieldType Value autoparse_field_value fields values.
  induction fields as [|field fields IH] using rev_ind.
  - cbn. split.
    + intros k. rewrite lookup_empty. split.
      * intros [? H]. discriminate H.
      * intros [_ (f & Hf & _)]. apply elem_of_nil in Hf. contradiction.
    + intros k v' H. rewrite lookup_empty in H. discriminate H.
  - rewrite autoparse_fields_snoc.
    destruct (autoparse_fields autoparse_field_value fields values)
      as [repr_e|parsed].
    + destruct IH as (f & v & Hf & Hv & Hp). exists f, v.
      split; [apply elem_of_app; auto | auto].
    + destruct IH as [Hkeys Hvals].
      destruct (values !! Field.identifier field) as [v|] eqn:Hgiven.
      * destruct (autoparse_field_value field v) as [repr_e|v'] eqn:Hparse.
        -- exists field, v. split; [|auto].
           apply elem_of_app. right. apply list_elem_of_here.
        -- split.
           ++ intros k. destruct (decide (Field.identifier field = k)) as [<-|Hne].
              ** rewrite lookup_insert_eq, Hgiven. split; [|eauto].
                 intros _. split; [eauto|]. exists field. split; [|reflexivity].
                 apply elem_of_app. right. apply list_elem_of_here.
              ** rewrite lookup_insert_ne by exact Hne. rewrite Hkeys.
                 split; intros [Hk (f & Hf & Hid)]; (split; [exact Hk|]).
                 --- exists f. split; [apply elem_of_app; auto | exact Hid].
                 --- apply elem_of_app in Hf as [Hf|Hf]; [eauto|].
                     apply list_elem_of_singleton in Hf as ->. contradiction.
           ++ intros k w Hk.
              destruct (decide (Field.identifier field = k)) as [<-|Hne].
              ** rewrite lookup_insert_eq in Hk. injection Hk as <-.
                 exists field, v. split; [|auto].
                 apply elem_of_app. right. apply list_elem_of_here.
              ** rewrite lookup_insert_ne in Hk by exact Hne.
                 destruct (Hvals k w Hk) as (f & x & Hf & Hid & Hx & Hp).
                 exists f, x. split; [apply elem_of_app; auto | auto].
      * split.
        -- intros k. rewrite Hkeys.
           split; intros [Hk (f & Hf & Hid)]; (split; [exact Hk|]).
           ++ exists f. split; [apply elem_of_app; auto | exact Hid].
           ++ apply elem_of_app in Hf as [Hf|Hf]; [eauto|].
              apply list_elem_of_singleton in Hf as ->.
              rewrite <- Hid, Hgiven in Hk. destruct Hk as [? Hk].
              discriminate Hk.
        -- intros k w Hk.
           destruct (Hvals k w Hk) as (f & x & Hf & Hid & Hx & Hp).
           exists f, x. split; [apply elem_of_app; auto | auto].
Qed.

(** Of the given values, ["a"] and ["b"] are declared and kept, ["z"] is
    not and is dropped; a value the parser rejects fails the whole call. *)
Example autoparse_fields_sample :
  autoparse_fields picky sample_fields
    {["a" := Some "x"; "b" := None; "z" := Some "y"]}
    = inr {["a" := Some "x"; "b" := None]}
  /\ autoparse_fields picky sample_fields {["a" := Some "bad"]}
       = inl "ValueError()".
Proof. split; vm_compute; reflexivity. Qed.
